(** * YMODEM sender (ymode.js): a shallow embedding and its properties

    The development follows [src/ymode.js]: the CRC16/XMODEM routine
    [crc16xmodem], the packet builders [makeFileHeader] and [splitFile],
    the chunker [splitBuffer], and the receiver-driven state machine
    inside [transfer] ([sendBuffer], [sendPacket], [readData], [close],
    [finish]).

    Bytes are integers of [Z] in the range 0..255, buffers are lists of
    them, indices and lengths are natural numbers.  JavaScript's 32-bit
    bitwise operators are written out with their wrap-around. *)

From Stdlib Require Import ZArith List Lia Bool DecimalNat.
From stdpp Require Import base numbers list strings.
Import ListNotations.

(** ** JavaScript 32-bit integer operators *)

Module JS.
Local Open Scope Z_scope.

(** [ToInt32] and [ToUint32] of ECMAScript, on integral values. *)
Definition ToUint32 (z : Z) : Z := z mod 2 ^ 32.

Definition ToInt32 (z : Z) : Z :=
  let m := z mod 2 ^ 32 in
  if m <? 2 ^ 31 then m else m - 2 ^ 32.

(** [a & b], [a ^ b], [a << n], [a >>> n]. *)
Definition and (a b : Z) : Z := ToInt32 (Z.land (ToInt32 a) (ToInt32 b)).
Definition xor (a b : Z) : Z := ToInt32 (Z.lxor (ToInt32 a) (ToInt32 b)).
Definition shl (a n : Z) : Z := ToInt32 (Z.shiftl (ToInt32 a) (ToUint32 n mod 32)).
Definition ushr (a n : Z) : Z := Z.shiftr (ToUint32 a) (ToUint32 n mod 32).

(** An array element read past the end is [undefined]; a bitwise
    operator turns [undefined] into 0. *)
Definition num (o : option Z) : Z := default 0 o.
End JS.

(** ** Constants of the protocol *)

Definition PACKET_SIZE_128 : nat := 128.
Definition PACKET_SIZE_1024 : nat := 1024.
Definition SOH : Z := 0x01.
Definition STX : Z := 0x02.
Definition EOT : Z := 0x04.
Definition ACK : Z := 0x06.
Definition NAK : Z := 0x15.
Definition CA : Z := 0x18.
Definition CRC16 : Z := 0x43.

(** ** Buffers *)

Abbreviation Buffer := (list Z).

Definition is_byte (b : Z) : Prop := (0 <= b < 256)%Z.

(** ** The checksum engine: [crc16xmodem] *)

Section Crc.
Local Open Scope Z_scope.

(** One pass of the loop body of [crc16xmodem], for the byte read at
    [packet[begin]]. *)
Definition crc_step (crc : Z) (elem : option Z) : Z :=
  let code := JS.and (JS.ushr crc 8) 0xff in
  let code := JS.xor code (JS.and (JS.num elem) 0xff) in
  let code := JS.xor code (JS.ushr code 4) in
  let crc := JS.and (JS.shl crc 8) 0xffff in
  let crc := JS.xor crc code in
  let code := JS.and (JS.shl code 5) 0xffff in
  let crc := JS.xor crc code in
  let code := JS.and (JS.shl code 7) 0xffff in
  let crc := JS.xor crc code in
  crc.

(** [for (; begin < stop_at; begin++)]: [n] passes are left. *)
Fixpoint crc_loop (packet : Buffer) (n begin : nat) (crc : Z) : Z :=
  match n with
  | O => crc
  | S n' => crc_loop packet n' (S begin) (crc_step crc (packet !! begin))
  end.

Definition crc16xmodem (packet : Buffer) (begin len : nat)
    (previous : option Z) : Z :=
  let stop_at := (begin + len)%nat in
  let crc := match previous with Some p => JS.ToInt32 p | None => 0x0 end in
  crc_loop packet (stop_at - begin)%nat begin crc.

(** *** The CRC16/XMODEM of the literature

    Polynomial 0x1021, register of 16 bits starting at 0, bytes fed most
    significant bit first, no reflection, no final xor: the byte is
    xor-ed into the high half of the register, which is then shifted
    left eight times, the polynomial being xor-ed in whenever a one
    leaves the register. *)
Definition xmodem_shift (r : Z) : Z :=
  let r' := Z.shiftl r 1 mod 2 ^ 16 in
  if Z.testbit r 15 then Z.lxor r' 0x1021 else r'.

Definition xmodem_byte (r b : Z) : Z :=
  Nat.iter 8 xmodem_shift (Z.lxor r (Z.shiftl b 8)).

Definition xmodem_crc16 (bytes : list Z) : Z :=
  fold_left xmodem_byte bytes 0.
End Crc.

(** ** The Buffer operations the program uses

    [Buffer] comes from the [buffer] package; the operations below follow
    its behaviour on the arguments the program passes.  A thrown
    [RangeError] is [None]. *)

(** [Buffer.alloc(size, fill)] *)
Definition Buffer_alloc (size : nat) (fill : Z) : Buffer :=
  replicate size (Z.land fill 255).

(** [buf[i] = v]: the value is stored modulo 256, a store past the end
    is dropped. *)
Definition Buffer_set (buf : Buffer) (i : nat) (v : Z) : Buffer :=
  <[i := (v mod 256)%Z]> buf.

(** [source.copy(target, targetStart, start, end)] *)
Definition Buffer_copy (source target : Buffer) (targetStart start end_ : nat)
    : option Buffer :=
  let targetStart :=
    if length target <=? targetStart then length target else targetStart in
  let end_ := if (0 <? end_) && (end_ <? start) then start else end_ in
  if end_ =? start then Some target
  else if (length target =? 0) || (length source =? 0) then Some target
  else if length source <=? start then None
  else
    let end_ := if length source <? end_ then length source else end_ in
    let end_ :=
      if length target - targetStart <? end_ - start
      then length target - targetStart + start else end_ in
    Some (take targetStart target
          ++ take (end_ - start) (drop start source)
          ++ drop (targetStart + (end_ - start)) target).

(** [buf.writeUInt16BE(value, offset)] *)
Definition Buffer_writeUInt16BE (buf : Buffer) (value : Z) (offset : nat)
    : option Buffer :=
  if ((value <? 0) || (0xffff <? value))%Z then None
  else if length buf <? offset + 2 then None
  else
    let buf := Buffer_set buf offset (JS.ushr value 8) in
    Some (Buffer_set buf (offset + 1) (JS.and value 0xff)).

(** *** Strings

    A JavaScript string is its sequence of UTF-16 code units;
    [s.length] is the length of that sequence. *)
Abbreviation JSString := (list Z).

Section Utf8.
Local Open Scope Z_scope.

Definition replacement : list Z := [0xEF; 0xBF; 0xBD].

Definition utf8_code_point (cp : Z) : list Z :=
  if cp <? 0x80 then [cp]
  else if cp <? 0x800 then
    [Z.lor (Z.shiftr cp 6) 0xC0; Z.lor (Z.land cp 0x3F) 0x80]
  else if cp <? 0x10000 then
    [Z.lor (Z.shiftr cp 12) 0xE0;
     Z.lor (Z.land (Z.shiftr cp 6) 0x3F) 0x80;
     Z.lor (Z.land cp 0x3F) 0x80]
  else
    [Z.lor (Z.shiftr cp 18) 0xF0;
     Z.lor (Z.land (Z.shiftr cp 12) 0x3F) 0x80;
     Z.lor (Z.land (Z.shiftr cp 6) 0x3F) 0x80;
     Z.lor (Z.land cp 0x3F) 0x80].

(** The loop of [utf8ToBytes] of the [buffer] package, which
    [buf.write] uses: the bytes pushed for each code unit, as one group,
    with the lead surrogate that is waiting for its partner.  A surrogate
    without its partner becomes U+FFFD when the next unit is read; a lead
    surrogate that is the last unit of the string becomes U+FFFD at once
    when no other lead is waiting, and is dropped when one is. *)
Fixpoint utf8_groups_from (leadSurrogate : option Z) (s : JSString)
    : list (list Z) :=
  match s with
  | [] => []
  | codePoint :: rest =>
      if (0xD7FF <? codePoint) && (codePoint <? 0xE000) then
        match leadSurrogate with
        | None =>
            if 0xDBFF <? codePoint then
              replacement :: utf8_groups_from None rest
            else
              match rest with
              | [] => [replacement]
              | _ :: _ => utf8_groups_from (Some codePoint) rest
              end
        | Some lead =>
            if codePoint <? 0xDC00 then
              replacement :: utf8_groups_from (Some codePoint) rest
            else
              utf8_code_point
                (Z.lor (Z.shiftl (lead - 0xD800) 10) (codePoint - 0xDC00)
                 + 0x10000)
              :: utf8_groups_from None rest
        end
      else
        match leadSurrogate with
        | Some _ =>
            replacement :: utf8_code_point codePoint
            :: utf8_groups_from None rest
        | None => utf8_code_point codePoint :: utf8_groups_from None rest
        end
  end.

Definition utf8_groups (s : JSString) : list (list Z) :=
  utf8_groups_from None s.
End Utf8.

(** The groups that fit in [room] bytes, the [units] of [utf8ToBytes]:
    once a group does not fit whole the count of units left is negative
    and nothing more is pushed. *)
Fixpoint fitting (groups : list (list Z)) (room : nat) : list Z :=
  match groups with
  | [] => []
  | g :: groups' =>
      if length g <=? room then g ++ fitting groups' (room - length g)
      else []
  end.

(** [buf.write(string, offset)], UTF-8. *)
Definition Buffer_write (buf : Buffer) (s : JSString) (offset : nat)
    : option Buffer :=
  if length buf <? offset then None
  else
    let bytes := fitting (utf8_groups s) (length buf - offset) in
    Some (take offset buf ++ bytes ++ drop (offset + length bytes) buf).

(** [n.toString()] for a non-negative integer below 10^21. *)
Definition digit_unit (d : nat) : Z := (0x30 + Z.of_nat d)%Z.

Fixpoint uint_units (u : Decimal.uint) : JSString :=
  match u with
  | Decimal.Nil => []
  | Decimal.D0 u => digit_unit 0 :: uint_units u
  | Decimal.D1 u => digit_unit 1 :: uint_units u
  | Decimal.D2 u => digit_unit 2 :: uint_units u
  | Decimal.D3 u => digit_unit 3 :: uint_units u
  | Decimal.D4 u => digit_unit 4 :: uint_units u
  | Decimal.D5 u => digit_unit 5 :: uint_units u
  | Decimal.D6 u => digit_unit 6 :: uint_units u
  | Decimal.D7 u => digit_unit 7 :: uint_units u
  | Decimal.D8 u => digit_unit 8 :: uint_units u
  | Decimal.D9 u => digit_unit 9 :: uint_units u
  end.

Definition toString (n : nat) : JSString := uint_units (Nat.to_uint n).

(** ** Predefined EOT packet *)

Definition eot_pack : Buffer :=
  let b := Buffer_alloc (PACKET_SIZE_128 + 5) 0x00 in
  let b := Buffer_set b 0 SOH in
  Buffer_set b 2 0xff.

(** ** The packet builder: [makeFileHeader] *)

Definition makeFileHeader (filename : JSString) (filesize : nat)
    : option Buffer :=
  let File_HD_SIZE := 128 in
  let payload := Buffer_alloc (File_HD_SIZE + 3 + 2) 0x00 in
  let payload := Buffer_set payload 0 SOH in
  let payload := Buffer_set payload 1 0 in
  let payload := Buffer_set payload 2 0xff in
  let offset := 3 in
  '(payload, offset) ←
    (if bool_decide (filename ≠ []) then
       payload' ← Buffer_write payload filename offset;
       Some (payload', offset + (length filename + 1))
     else Some (payload, offset));
  payload ←
    (if bool_decide (filesize ≠ 0) then
       Buffer_write payload (toString filesize ++ [0x20%Z]) offset
     else Some payload);
  let crc := crc16xmodem payload 3 File_HD_SIZE None in
  Buffer_writeUInt16BE payload crc (length payload - 2).

(** ** The file splitter: [splitFile] *)

(** The body of the loop of [splitFile] for index [i]. *)
Definition splitFile_chunk (buffer : Buffer) (totalBytes maxPack i : nat)
    : option Buffer :=
  let is_last := (i + 1 =? maxPack) in
  let packSize := PACKET_SIZE_1024 in
  let packSize :=
    if is_last && (totalBytes - i * PACKET_SIZE_1024 <=? 128)
    then PACKET_SIZE_128 else packSize in
  let chunk := Buffer_alloc (packSize + 3 + 2) (if is_last then 0x1A else 0x00) in
  let chunk := Buffer_set chunk 0 (if packSize =? PACKET_SIZE_1024 then STX else SOH) in
  let chunk := Buffer_set chunk 1 (JS.and (Z.of_nat (i + 1)) 0xff) in
  let chunk := Buffer_set chunk 2 (0xff - JS.num (chunk !! 1)) in
  chunk ← Buffer_copy buffer chunk 3
            (PACKET_SIZE_1024 * i) (PACKET_SIZE_1024 * i + packSize);
  let crc := crc16xmodem chunk 3 packSize None in
  Buffer_writeUInt16BE chunk crc (length chunk - 2).

Definition splitFile (buffer : Buffer) : option (list Buffer) :=
  let totalBytes := length buffer in
  let maxPack := (length buffer + PACKET_SIZE_1024 - 1) / PACKET_SIZE_1024 in
  mapM (splitFile_chunk buffer totalBytes maxPack) (List.seq 0 maxPack).

(** ** [splitBuffer]

    With [size = 0] the quotient is not a number and the loop does not
    run; the division of [nat] by 0 gives 0 and the same empty result. *)

(** The body of the loop of [splitBuffer] for index [i]. *)
Definition splitBuffer_chunk (buffer : Buffer) (totalBytes size maxPack i : nat)
    : option Buffer :=
  let is_last := (i + 1 =? maxPack) in
  let packSize := size in
  let packSize := if is_last then totalBytes mod size else packSize in
  let chunk := Buffer_alloc packSize 0x00 in
  Buffer_copy buffer chunk 0 (size * i) (size * i + packSize).

Definition splitBuffer (buffer : Buffer) (size : nat) : option (list Buffer) :=
  let totalBytes := length buffer in
  let maxPack := (length buffer + size - 1) / size in
  mapM (splitBuffer_chunk buffer totalBytes size maxPack) (List.seq 0 maxPack).

(** A filename given in ASCII. *)
Definition ascii_units (s : string) : JSString :=
  map (fun a => Z.of_nat (Ascii.nat_of_ascii a)) (String.list_ascii_of_string s).

(** ** The regions of a packet

    [[marker:1][seq:1][seqComplement:1][payload][crcHigh:1][crcLow:1]] *)

Definition payload_of (packet : list Z) : list Z :=
  take (length packet - 5) (drop 3 packet).

Definition trailer_of (packet : list Z) : list Z :=
  drop (length packet - 2) packet.

(** ** The header payload of the specification

    [filename + NUL + decimalSize + SPACE], zero-padded to 128 bytes. *)
Definition header_layout (name : list Z) (filesize : nat) : list Z :=
  let text := name ++ [0x00%Z] ++ toString filesize ++ [0x20%Z] in
  text ++ replicate (128 - length text) 0x00%Z.

(** A filename of ASCII characters other than NUL. *)
Definition ascii_name (name : JSString) : Prop :=
  Forall (fun c => (0 < c < 128)%Z) name.

(** ** Reading a header payload back

    The receiving side is not part of the program.  The reader below
    follows the header layout of the specification: the filename up to
    the first NUL, then the decimal size up to the first space. *)

Definition unit_digit (c : Z) : option nat :=
  if ((0x30 <=? c) && (c <=? 0x39))%Z then Some (Z.to_nat (c - 0x30)) else None.

Fixpoint parse_decimal (acc : nat) (cs : list Z) : option nat :=
  match cs with
  | [] => Some acc
  | c :: cs' => d ← unit_digit c; parse_decimal (10 * acc + d) cs'
  end.

Fixpoint until (stop : Z) (bs : list Z) : option (list Z * list Z) :=
  match bs with
  | [] => None
  | b :: bs' =>
      if (b =? stop)%Z then Some ([], bs')
      else '(pre, post) ← until stop bs'; Some (b :: pre, post)
  end.

Definition parse_header (payload : list Z) : option (list Z * nat) :=
  '(name, rest) ← until 0x00 payload;
  '(digits, _) ← until 0x20 rest;
  size ← parse_decimal 0 digits;
  Some (name, size).

(** ** The transfer driver

    The calls of [logger] are left out, and [logger] and
    [progressCallback] are taken to return normally: an exception of
    theirs inside the read loop would reach the [catch] of [readData] as
    an error of [reader.read()] does.  A call of [writer.write] is
    recorded in [writes] and taken to succeed. *)

(** The outcome value handed to [resolve]. *)
Record Outcome := mkOutcome {
  filePath : JSString;
  out_totalBytes : nat;
  out_writtenBytes : nat;
}.

(** What [transfer] fixes before the read loop starts. *)
Record Env := mkEnv {
  filename : JSString;
  file_trunks : list Buffer;
  totalBytes : nat;
  reader_locked : bool;      (* the value of [reader.locked] is truthy *)
  progressCallback : bool;   (* a [progressCallback] was passed *)
}.

(** The variables of the closure, and what the driver has done so far. *)
Record State := mkState {
  seq : nat;
  session : bool;
  sending : bool;
  finished : bool;
  writtenBytes : nat;
  PreChar : Z;
  writes : list Buffer;        (* buffers given to [writer.write], in order *)
  progress : list (nat * nat); (* [writtenBytes], [totalBytes] of each progress call *)
  resolved : list Outcome;     (* arguments of the calls of [resolve] *)
  rejected : nat;              (* calls of [reject] *)
  cancels : nat;               (* [reader.cancel()] calls whose [then] is pending *)
}.

Definition set_seq (n : nat) (st : State) : State :=
  mkState n (session st) (sending st) (finished st) (writtenBytes st)
    (PreChar st) (writes st) (progress st) (resolved st) (rejected st) (cancels st).
Definition set_session (b : bool) (st : State) : State :=
  mkState (seq st) b (sending st) (finished st) (writtenBytes st)
    (PreChar st) (writes st) (progress st) (resolved st) (rejected st) (cancels st).
Definition set_sending (b : bool) (st : State) : State :=
  mkState (seq st) (session st) b (finished st) (writtenBytes st)
    (PreChar st) (writes st) (progress st) (resolved st) (rejected st) (cancels st).
Definition set_finished (b : bool) (st : State) : State :=
  mkState (seq st) (session st) (sending st) b (writtenBytes st)
    (PreChar st) (writes st) (progress st) (resolved st) (rejected st) (cancels st).
Definition set_writtenBytes (n : nat) (st : State) : State :=
  mkState (seq st) (session st) (sending st) (finished st) n
    (PreChar st) (writes st) (progress st) (resolved st) (rejected st) (cancels st).
Definition set_PreChar (c : Z) (st : State) : State :=
  mkState (seq st) (session st) (sending st) (finished st) (writtenBytes st)
    c (writes st) (progress st) (resolved st) (rejected st) (cancels st).
Definition push_write (b : Buffer) (st : State) : State :=
  mkState (seq st) (session st) (sending st) (finished st) (writtenBytes st)
    (PreChar st) (writes st ++ [b]) (progress st) (resolved st) (rejected st) (cancels st).
Definition push_progress (p : nat * nat) (st : State) : State :=
  mkState (seq st) (session st) (sending st) (finished st) (writtenBytes st)
    (PreChar st) (writes st) (progress st ++ [p]) (resolved st) (rejected st) (cancels st).
Definition push_resolved (o : Outcome) (st : State) : State :=
  mkState (seq st) (session st) (sending st) (finished st) (writtenBytes st)
    (PreChar st) (writes st) (progress st) (resolved st ++ [o]) (rejected st) (cancels st).
Definition push_rejected (st : State) : State :=
  mkState (seq st) (session st) (sending st) (finished st) (writtenBytes st)
    (PreChar st) (writes st) (progress st) (resolved st) (S (rejected st)) (cancels st).
Definition set_cancels (n : nat) (st : State) : State :=
  mkState (seq st) (session st) (sending st) (finished st) (writtenBytes st)
    (PreChar st) (writes st) (progress st) (resolved st) (rejected st) n.

Section Driver.
Variable env : Env.

(** [sendBuffer(buffer)]: the program never passes [once_len], so the
    buffer goes to [writer.write] whole.  The call of [writer.write]
    happens before the first suspension of the asynchronous function,
    hence in the order of the calls of [sendBuffer]. *)
Definition sendBuffer (buffer : Buffer) (st : State) : State :=
  push_write buffer st.

Definition sendPacket (st : State) : State :=
  if seq st <? length (file_trunks env) then
    match file_trunks env !! seq st with
    | Some packet => sendBuffer packet st
    | None => st
    end
  else if sending st then sendBuffer [EOT] st
  else st.

Definition finish (st : State) : State :=
  let st :=
    if negb (finished st) then
      push_resolved
        (mkOutcome (filename env) (totalBytes env) (writtenBytes st)) st
    else st in
  set_finished true st.

(** [close]: when [reader.locked] is truthy, [finish] waits for the
    promise of [reader.cancel()]. *)
Definition close (st : State) : State :=
  let st := set_session false st in
  let st := set_sending false st in
  if reader_locked env then set_cancels (S (cancels st)) st
  else finish st.

(** The body of the loop over the bytes of a chunk, for the byte [ch]. *)
Definition handle_byte (st : State) (ch : Z) : State :=
  if negb (finished st) then
    let st :=
      if (ch =? CRC16)%Z then
        if length (file_trunks env) <=? seq st then sendBuffer eot_pack st
        else if negb (PreChar st =? CRC16)%Z then
          set_sending true (sendPacket st)
        else st
      else if (ch =? ACK)%Z then
        let st := if negb (session st) then close st else st in
        if sending st then
          if seq st =? 0 then set_seq (seq st + 1) st
          else if seq st <? length (file_trunks env) then
            let st :=
              if writtenBytes st <? totalBytes env then
                let st := set_writtenBytes ((seq st + 1) * PACKET_SIZE_1024) st in
                if totalBytes env <? writtenBytes st
                then set_writtenBytes (totalBytes env) st else st
              else st in
            let st := set_seq (seq st + 1) st in
            let st :=
              if progressCallback env
              then push_progress (writtenBytes st, totalBytes env) st else st in
            sendPacket st
          else
            let st := set_sending false st in
            let st := set_session false st in
            sendBuffer eot_pack st
        else st
      else if (ch =? NAK)%Z then sendPacket st
      else if (ch =? CA)%Z then close st
      else st in
    set_PreChar ch st
  else st.

Definition handle_chunk (st : State) (value : list Z) : State :=
  fold_left handle_byte value st.

(** How the inbound stream ends when the driver does not cancel it:
    [reader.read()] reports [done], or throws. *)
Inductive StreamEnd := ReadDone | ReadThrows.

(** [readData]: one chunk per [reader.read()].  Once [reader.cancel()]
    has been called the stream is closed and the next read reports
    [done].  [reject] is called in the [catch] of the loop; with
    [logger] and [progressCallback] returning normally, what reaches it
    is an error of [reader.read()]. *)
Fixpoint readData (st : State) (chunks : list (list Z)) (e : StreamEnd)
    : State :=
  match chunks with
  | [] => match e with ReadDone => st | ReadThrows => push_rejected st end
  | value :: chunks' =>
      let st := handle_chunk st value in
      if 0 <? cancels st then st else readData st chunks' e
  end.

(** The callbacks [() => finish()] attached to the promises of
    [reader.cancel()], taken to be fulfilled. *)
Definition run_callbacks (st : State) : State :=
  set_cancels 0 (Nat.iter (cancels st) finish st).

Definition initial : State :=
  mkState 0 true false false 0 0 [] [] [] 0 0.

Definition run (chunks : list (list Z)) (e : StreamEnd) : State :=
  run_callbacks (readData initial chunks e).
End Driver.

(** The [buffer] argument of [transfer].  A typed array (a
    [Uint8Array], a [Buffer]) is a view of [byteLength] bytes, from
    [byteOffset] on, of the ArrayBuffer under it, which its [buffer]
    property gives; an ArrayBuffer has no such property. *)
Inductive BufferArg :=
  | TypedArray (arrayBuffer : Buffer) (byteOffset byteLength : nat)
  | ArrayBuffer (bytes : Buffer).

(** The bytes the argument itself holds. *)
Definition BufferArg_bytes (arg : BufferArg) : Buffer :=
  match arg with
  | TypedArray arrayBuffer byteOffset byteLength =>
      take byteLength (drop byteOffset arrayBuffer)
  | ArrayBuffer bytes => bytes
  end.

(** [buffer.buffer]; [None] is [undefined]. *)
Definition BufferArg_buffer (arg : BufferArg) : option Buffer :=
  match arg with
  | TypedArray arrayBuffer _ _ => Some arrayBuffer
  | ArrayBuffer _ => None
  end.

(** [Buffer.from(value)] for an ArrayBuffer, all of whose bytes the new
    buffer holds, and for [undefined], where it throws a TypeError
    ([None]). *)
Definition Buffer_from (value : option Buffer) : option Buffer := value.

(** [transfer], once [buffer] holds bytes: the packet queue is the
    header followed by the data packets; [None] when building it
    throws. *)
Definition transfer_queue (name : JSString) (buffer : Buffer)
    (locked callback : bool) : option Env :=
  let totalBytes := length buffer in
  headerPayload ← makeFileHeader name totalBytes;
  payloads ← splitFile buffer;
  Some (mkEnv name (headerPayload :: payloads) totalBytes locked callback).

(** [transfer] up to the start of the read loop.  It begins with
    [buffer = Buffer.from(buffer.buffer)]: what is sent is the whole
    ArrayBuffer under the argument, whatever part of it the argument
    views.  [None] when this or the building of the queue throws: the
    promise of [transfer] is then never settled. *)
Definition transfer_env (name : JSString) (buffer : BufferArg)
    (locked callback : bool) : option Env :=
  buffer ← Buffer_from (BufferArg_buffer buffer);
  transfer_queue name buffer locked callback.

Definition transfer (name : JSString) (buffer : BufferArg)
    (locked callback : bool) (chunks : list (list Z)) (e : StreamEnd)
    : option State :=
  env ← transfer_env name buffer locked callback;
  Some (run env chunks e).

(** [sendBuffer(buffer, once_len)] with its second argument: when it is
    not 0 the buffer goes out in the chunks of [splitBuffer], each as the
    bytes of its own array. *)
Definition sendBuffer_chunked (buffer : Buffer) (once_len : nat) (st : State)
    : option State :=
  if once_len =? 0 then Some (sendBuffer buffer st)
  else
    chunks ← splitBuffer buffer once_len;
    Some (fold_left (fun st chunk => push_write chunk st) chunks st).

(** * Notions used in the statements

    Closed forms of what the builders return, the invariants of the
    driver, and the inputs of the examples. *)

Section PlainArithmetic.
Local Open Scope Z_scope.

(** ** An exhaustive check over the numbers of [k] bits *)

Fixpoint all_bits (k : nat) (P : Z -> bool) (prefix : Z) : bool :=
  match k with
  | O => P prefix
  | S k' => all_bits k' P (2 * prefix) && all_bits k' P (2 * prefix + 1)
  end.


(** ** The loop body of [crc16xmodem] in plain arithmetic *)

(** The loop body without the 32-bit conversions: on a register of
    16 bits and a byte none of them changes a value. *)
Definition crc_plain (crc b : Z) : Z :=
  let code := Z.lxor (crc / 2 ^ 8) b in
  let code := Z.lxor code (code / 2 ^ 4) in
  let crc := (crc * 2 ^ 8) mod 2 ^ 16 in
  let crc := Z.lxor crc code in
  let code := (code * 2 ^ 5) mod 2 ^ 16 in
  let crc := Z.lxor crc code in
  let code := (code * 2 ^ 7) mod 2 ^ 16 in
  Z.lxor crc code.

Definition plain_agrees (x : Z) : bool := crc_plain x 0 =? xmodem_byte x 0.

(** A register fed with its own two bytes, high byte first. *)
Definition plain_self_check (x : Z) : bool :=
  crc_plain (crc_plain x (x / 2 ^ 8)) (x mod 2 ^ 8) =? 0.

End PlainArithmetic.

(** ** The packets of [splitFile] in closed form *)

Definition maxPack_of (L : nat) : nat :=
  (L + PACKET_SIZE_1024 - 1) / PACKET_SIZE_1024.

Definition is_last_of (L i : nat) : bool := i + 1 =? maxPack_of L.

Definition packSize_of (L i : nat) : nat :=
  if is_last_of L i && (L - i * PACKET_SIZE_1024 <=? 128)
  then PACKET_SIZE_128 else PACKET_SIZE_1024.

(** The payload region: the bytes of the file from [start] on, then
    the filler. *)
Definition chunk_payload (buffer : list Z) (p : nat) (fill : Z) (start : nat)
    : list Z :=
  let d := take p (drop start buffer) in
  d ++ replicate (p - length d) fill.

Definition framed (m s : Z) (payload : list Z) : list Z :=
  let crc := crc16xmodem payload 0 (length payload) None in
  [m; s; (0xff - s)%Z] ++ payload ++ [(crc / 2 ^ 8)%Z; (crc mod 2 ^ 8)%Z].

Definition data_packet (buffer : list Z) (i : nat) : list Z :=
  let L := length buffer in
  framed (if packSize_of L i =? PACKET_SIZE_1024 then STX else SOH)
         (Z.of_nat (i + 1) mod 2 ^ 8)
         (chunk_payload buffer (packSize_of L i)
            (if is_last_of L i then 0x1A%Z else 0x00%Z)
            (PACKET_SIZE_1024 * i)).


(** ** The chunks of [splitBuffer] in closed form *)

Definition chunk_count (L size : nat) : nat := (L + size - 1) / size.

Definition buffer_chunk (buffer : list Z) (size i : nat) : list Z :=
  let L := length buffer in
  take (if i + 1 =? chunk_count L size then L mod size else size)
       (drop (size * i) buffer).

(** Text of ASCII characters. *)
Definition ascii_text (t : list Z) : Prop :=
  Forall (fun c => (0 <= c < 128)%Z) t.


(** ** Teardown and invariants of the driver *)

Section DriverNotions.
Variable env : Env.

(** The session is being torn down: the outcome was produced, or a
    cancellation of the reader is under way. *)
Definition torn_b (st : State) : bool := finished st || (0 <? cancels st).

(** The bytes on which [close] is called. *)
Definition tear_byte (st : State) (ch : Z) : bool :=
  (ch =? CA)%Z || ((ch =? ACK)%Z && negb (session st)).

Fixpoint tears_down (st : State) (bytes : list Z) : bool :=
  match bytes with
  | [] => false
  | ch :: rest => tear_byte st ch || tears_down (handle_byte env st ch) rest
  end.

Definition outcome_of (st : State) : Outcome :=
  mkOutcome (filename env) (totalBytes env) (writtenBytes st).

Definition outcome_inv (st : State) : Prop :=
  resolved st = if finished st then [outcome_of st] else [].

Definition written_inv (st : State) : Prop :=
  writtenBytes st = 0
  \/ writtenBytes st = Nat.min (seq st * PACKET_SIZE_1024) (totalBytes env).

(** After the outcome the driver changes at most its count of rejections
    and of pending callbacks. *)
Definition core (st : State) :=
  (seq st, session st, sending st, finished st, writtenBytes st,
   PreChar st, writes st, progress st, resolved st).

End DriverNotions.

(** The buffers the driver has to send: a packet of the queue, the
    single byte EOT, or the closing packet. *)
Definition known_frame (env : Env) (w : Buffer) : Prop :=
  In w (file_trunks env) \/ w = [EOT] \/ w = eot_pack.

(** A call of the progress callback with a share of the file in
    (0, 100] percent. *)
Definition progress_ok (total : nat) (p : nat * nat) : Prop :=
  0 < fst p <= snd p /\ snd p = total.

(** What holds of the cursor and of the count of bytes in every state
    the driver reaches. *)
Definition in_bounds (env : Env) (st : State) : Prop :=
  written_inv env st
  /\ seq st <= length (file_trunks env)
  /\ writtenBytes st <= totalBytes env.

(** From [st] to [st'] the driver has only moved forward: the cursor and
    the count of bytes have not gone back and are within their bounds,
    known frames were written, and the progress callback was called, if
    it was passed, with shares in (0, 100] percent as long as a queue
    with data packets has bytes to account for. *)
Definition forward (env : Env) (st st' : State) : Prop :=
  seq st <= seq st' <= length (file_trunks env)
  /\ writtenBytes st <= writtenBytes st' <= totalBytes env
  /\ (exists ws, writes st' = writes st ++ ws /\ Forall (known_frame env) ws)
  /\ (exists ps,
        progress st' = progress st ++ ps
        /\ (progressCallback env = false -> ps = [])
        /\ ((1 < length (file_trunks env) -> 0 < totalBytes env) ->
            Forall (progress_ok (totalBytes env)) ps)).

(** The replies of a receiver that accepts everything, for a queue of a
    header and [n] data packets: 'C', the ACK of the header, 'C', the ACK
    of each data packet, the ACK of EOT and the ACK of the closing
    packet. *)
Definition polite_replies (n : nat) : list Z :=
  [CRC16; ACK; CRC16] ++ replicate n ACK ++ [ACK; ACK].

(** ** Sample inputs *)

(** The digits of "123456789". *)
Definition check_string : Buffer :=
  [0x31; 0x32; 0x33; 0x34; 0x35; 0x36; 0x37; 0x38; 0x39]%Z.

(** A file of three bytes. *)
Definition three_bytes : list Z := [0x41; 0x42; 0x43]%Z.

Definition three_bytes_packets : list (list Z) :=
  Eval vm_compute in default [] (splitFile three_bytes).

(** A file of two hundred bytes: more than a small frame, less than a
    large one. *)
Definition two_hundred_bytes : list Z := replicate 200 0x41%Z.

(** A filename of 127 letters: with the NUL it fills the payload. *)
Definition long_name : list Z := replicate 127 0x61%Z.

(** The name "é.bin": five code units, six bytes of UTF-8. *)
Definition e_acute_bin : JSString := [0xE9; 0x2E; 0x62; 0x69; 0x6E]%Z.

(** A name with a NUL character in it. *)
Definition nul_name : JSString := [0x61; 0x00; 0x62]%Z.

(** What a transfer of the file of three bytes, called "a", fixes. *)
Definition no_env : Env := mkEnv [] [] 0 false false.

Definition three_bytes_env : Env :=
  Eval vm_compute in
    default no_env
      (transfer_env (ascii_units "a") (TypedArray three_bytes 0 3) false false).

(** A file of two full packets, and what its transfer fixes. *)
Definition two_packets : list Z := replicate 2048 0x41%Z.

Definition two_packets_env : Env :=
  Eval vm_compute in
    default no_env
      (transfer_env (ascii_units "a") (TypedArray two_packets 0 2048)
         false false).

(** The transfer of the three bytes once its only data packet has been
    acknowledged: the cursor is at the end of the queue. *)
Definition all_sent_state : State :=
  handle_chunk three_bytes_env initial [CRC16; ACK; CRC16; ACK].

(** The same transfer, cancelled at once: the outcome has been produced. *)
Definition cancelled_state : State := handle_chunk three_bytes_env initial [CA].


(** * Properties *)

(** ** The 32-bit operators on small non-negative operands *)

Section JSFacts.
Local Open Scope Z_scope.

Lemma ToInt32_small z : 0 <= z < 2 ^ 31 -> JS.ToInt32 z = z.
Proof.
  intros H. unfold JS.ToInt32.
  rewrite Z.mod_small by lia.
  destruct (Z.ltb_spec z (2 ^ 31)); lia.
Qed.

Lemma ToUint32_small z : 0 <= z < 2 ^ 32 -> JS.ToUint32 z = z.
Proof. intros H. unfold JS.ToUint32. apply Z.mod_small. lia. Qed.

Lemma lxor_bound n a b :
  0 <= n -> 0 <= a < 2 ^ n -> 0 <= b < 2 ^ n -> 0 <= Z.lxor a b < 2 ^ n.
Proof.
  intros Hn Ha Hb.
  assert (H0 : 0 <= Z.lxor a b) by (apply Z.lxor_nonneg; lia).
  split; [exact H0|].
  destruct (Z.eq_dec (Z.lxor a b) 0) as [->|Hx]; [lia|].
  assert (Hn' : 0 < n).
  { destruct (Z.eq_dec n 0) as [->|]; [|lia].
    assert (a = 0) by lia. assert (b = 0) by lia. subst. now elim Hx. }
  apply Z.log2_lt_pow2; [lia|].
  pose proof (Z.log2_lxor a b ltac:(lia) ltac:(lia)) as Hl.
  assert (La : Z.log2 a < n).
  { destruct (Z.eq_dec a 0) as [->|]; [simpl; lia|].
    apply Z.log2_lt_pow2; lia. }
  assert (Lb : Z.log2 b < n).
  { destruct (Z.eq_dec b 0) as [->|]; [simpl; lia|].
    apply Z.log2_lt_pow2; lia. }
  lia.
Qed.

Lemma ToInt32_mod_pow2 z k :
  0 <= k <= 32 -> JS.ToInt32 z mod 2 ^ k = z mod 2 ^ k.
Proof.
  intros Hk.
  assert (E : 2 ^ 32 = 2 ^ (32 - k) * 2 ^ k)
    by (rewrite <- Z.pow_add_r by lia; f_equal; lia).
  assert (Hm : (z mod 2 ^ 32) mod 2 ^ k = z mod 2 ^ k).
  { rewrite (Z.div_mod z (2 ^ 32)) at 2 by lia.
    rewrite E at 2.
    replace (2 ^ (32 - k) * 2 ^ k * (z / 2 ^ 32) + z mod 2 ^ 32)
      with (z mod 2 ^ 32 + (2 ^ (32 - k) * (z / 2 ^ 32)) * 2 ^ k) by ring.
    now rewrite Z_mod_plus_full. }
  unfold JS.ToInt32. cbv zeta.
  destruct (z mod 2 ^ 32 <? 2 ^ 31); [exact Hm|].
  rewrite <- Hm, E.
  replace (z mod (2 ^ (32 - k) * 2 ^ k) - 2 ^ (32 - k) * 2 ^ k)
    with (z mod (2 ^ (32 - k) * 2 ^ k) + (- 2 ^ (32 - k)) * 2 ^ k) by ring.
  now rewrite Z_mod_plus_full.
Qed.

Lemma and_mask a k : 0 <= k <= 31 -> JS.and a (Z.ones k) = a mod 2 ^ k.
Proof.
  intros Hk. unfold JS.and.
  assert (Hp : 0 < 2 ^ k <= 2 ^ 31).
  { split; [apply Z.pow_pos_nonneg; lia | apply Z.pow_le_mono_r; lia]. }
  assert (Ho : 0 <= Z.ones k < 2 ^ 31) by (rewrite Z.ones_equiv; lia).
  rewrite (ToInt32_small (Z.ones k)) by lia.
  rewrite Z.land_ones, ToInt32_mod_pow2 by lia.
  pose proof (Z.mod_pos_bound a (2 ^ k) ltac:(lia)).
  apply ToInt32_small. lia.
Qed.

Lemma xor_small a b :
  0 <= a < 2 ^ 31 -> 0 <= b < 2 ^ 31 -> JS.xor a b = Z.lxor a b.
Proof.
  intros Ha Hb. unfold JS.xor.
  rewrite (ToInt32_small a), (ToInt32_small b) by lia.
  apply ToInt32_small. apply lxor_bound; lia.
Qed.

Lemma shl_small a k :
  0 <= k < 32 -> 0 <= a -> a * 2 ^ k < 2 ^ 31 -> JS.shl a k = a * 2 ^ k.
Proof.
  intros Hk Ha Hb. unfold JS.shl.
  assert (Hp : 1 <= 2 ^ k) by (apply (Z.pow_le_mono_r 2 0 k); lia).
  rewrite (ToInt32_small a) by nia.
  rewrite (ToUint32_small k) by lia.
  rewrite (Z.mod_small k 32) by lia.
  rewrite Z.shiftl_mul_pow2 by lia.
  apply ToInt32_small. nia.
Qed.

Lemma ushr_small a k :
  0 <= k < 32 -> 0 <= a < 2 ^ 32 -> JS.ushr a k = a / 2 ^ k.
Proof.
  intros Hk Ha. unfold JS.ushr.
  rewrite (ToUint32_small a), (ToUint32_small k) by lia.
  rewrite (Z.mod_small k 32) by lia.
  apply Z.shiftr_div_pow2. lia.
Qed.
End JSFacts.

(** ** A check of all the numbers of [k] bits *)

Section Exhaustive.
Local Open Scope Z_scope.

Lemma all_bits_sound k P :
  forall prefix, all_bits k P prefix = true ->
  forall z, 0 <= z < 2 ^ Z.of_nat k -> P (prefix * 2 ^ Z.of_nat k + z) = true.
Proof.
  induction k as [|k IH]; intros prefix H z Hz.
  - change (2 ^ Z.of_nat 0) with 1 in *. simpl in H.
    replace (prefix * 1 + z) with prefix by lia. exact H.
  - simpl in H. apply andb_prop in H as [H0 H1].
    rewrite Nat2Z.inj_succ, Z.pow_succ_r in * by lia.
    destruct (Z.lt_ge_cases z (2 ^ Z.of_nat k)) as [Hlt|Hge].
    + replace (prefix * (2 * 2 ^ Z.of_nat k) + z)
        with (2 * prefix * 2 ^ Z.of_nat k + z) by lia.
      apply IH; [exact H0 | lia].
    + replace (prefix * (2 * 2 ^ Z.of_nat k) + z)
        with ((2 * prefix + 1) * 2 ^ Z.of_nat k + (z - 2 ^ Z.of_nat k)) by lia.
      apply IH; [exact H1 | lia].
Qed.

Lemma all_below k P :
  all_bits k P 0 = true -> forall z, 0 <= z < 2 ^ Z.of_nat k -> P z = true.
Proof.
  intros H z Hz. pose proof (all_bits_sound k P 0 H z Hz) as Hs.
  rewrite Z.mul_0_l, Z.add_0_l in Hs. exact Hs.
Qed.
End Exhaustive.

(** ** The checksum *)

Section CrcFacts.
Local Open Scope Z_scope.

Lemma crc_plain_range crc b :
  0 <= crc < 2 ^ 16 -> 0 <= b < 2 ^ 8 -> 0 <= crc_plain crc b < 2 ^ 16.
Proof.
  intros Hc Hb. unfold crc_plain. cbv zeta.
  assert (Hd : 0 <= crc / 2 ^ 8 < 2 ^ 8).
  { split; [apply Z.div_pos; lia | apply Z.div_lt_upper_bound; lia]. }
  pose proof (lxor_bound 8 _ _ ltac:(lia) Hd Hb) as H0.
  set (c0 := Z.lxor (crc / 2 ^ 8) b) in *.
  assert (H0' : 0 <= c0 / 2 ^ 4 < 2 ^ 8).
  { split; [apply Z.div_pos; lia | apply Z.div_lt_upper_bound; lia]. }
  pose proof (lxor_bound 8 _ _ ltac:(lia) H0 H0') as H1.
  set (c1 := Z.lxor c0 (c0 / 2 ^ 4)) in *.
  pose proof (Z.mod_pos_bound (crc * 2 ^ 8) (2 ^ 16) ltac:(lia)) as H2.
  pose proof (Z.mod_pos_bound (c1 * 2 ^ 5) (2 ^ 16) ltac:(lia)) as H4.
  pose proof (Z.mod_pos_bound ((c1 * 2 ^ 5) mod 2 ^ 16 * 2 ^ 7) (2 ^ 16)
                ltac:(lia)) as H6.
  repeat apply lxor_bound; lia.
Qed.

Lemma crc_step_plain crc e :
  0 <= crc < 2 ^ 16 -> crc_step crc e = crc_plain crc (JS.num e mod 2 ^ 8).
Proof.
  intros Hc. unfold crc_step, crc_plain. cbv zeta.
  generalize (JS.num e). intros v.
  pose proof (Z.mod_pos_bound v (2 ^ 8) ltac:(lia)) as Hb.
  assert (Hd : 0 <= crc / 2 ^ 8 < 2 ^ 8).
  { split; [apply Z.div_pos; lia | apply Z.div_lt_upper_bound; lia]. }
  change 0xff with (Z.ones 8). change 0xffff with (Z.ones 16).
  rewrite (ushr_small crc 8) by lia.
  rewrite !(and_mask _ 8) by lia.
  rewrite (Z.mod_small (crc / 2 ^ 8)) by lia.
  set (b := v mod 2 ^ 8) in *.
  pose proof (lxor_bound 8 _ _ ltac:(lia) Hd Hb) as H0.
  rewrite (xor_small (crc / 2 ^ 8) b) by lia.
  set (c0 := Z.lxor (crc / 2 ^ 8) b) in *.
  assert (H0' : 0 <= c0 / 2 ^ 4 < 2 ^ 8).
  { split; [apply Z.div_pos; lia | apply Z.div_lt_upper_bound; lia]. }
  rewrite (ushr_small c0 4) by lia.
  pose proof (lxor_bound 8 _ _ ltac:(lia) H0 H0') as H1.
  rewrite (xor_small c0 (c0 / 2 ^ 4)) by lia.
  set (c1 := Z.lxor c0 (c0 / 2 ^ 4)) in *.
  rewrite (shl_small crc 8) by lia.
  rewrite (and_mask (crc * 2 ^ 8) 16) by lia.
  pose proof (Z.mod_pos_bound (crc * 2 ^ 8) (2 ^ 16) ltac:(lia)) as H2.
  set (r1 := (crc * 2 ^ 8) mod 2 ^ 16) in *.
  pose proof (lxor_bound 16 r1 c1 ltac:(lia) ltac:(lia) ltac:(lia)) as H3.
  rewrite (xor_small r1 c1) by lia.
  set (r2 := Z.lxor r1 c1) in *.
  rewrite (shl_small c1 5) by lia.
  rewrite (and_mask (c1 * 2 ^ 5) 16) by lia.
  pose proof (Z.mod_pos_bound (c1 * 2 ^ 5) (2 ^ 16) ltac:(lia)) as H4.
  set (c2 := (c1 * 2 ^ 5) mod 2 ^ 16) in *.
  pose proof (lxor_bound 16 r2 c2 ltac:(lia) ltac:(lia) ltac:(lia)) as H5.
  rewrite (xor_small r2 c2) by lia.
  set (r3 := Z.lxor r2 c2) in *.
  rewrite (shl_small c2 7) by lia.
  rewrite (and_mask (c2 * 2 ^ 7) 16) by lia.
  pose proof (Z.mod_pos_bound (c2 * 2 ^ 7) (2 ^ 16) ltac:(lia)) as H6.
  set (c3 := (c2 * 2 ^ 7) mod 2 ^ 16) in *.
  apply xor_small; lia.
Qed.

Lemma crc_step_range crc e :
  0 <= crc < 2 ^ 16 -> 0 <= crc_step crc e < 2 ^ 16.
Proof.
  intros Hc. rewrite crc_step_plain by assumption.
  apply crc_plain_range; [assumption|].
  apply Z.mod_pos_bound. lia.
Qed.

(** The register after a byte depends on the register and the byte
    through [crc xor (b << 8)] only. *)
Lemma fold_byte crc b :
  0 <= crc < 2 ^ 16 -> 0 <= b < 2 ^ 8 ->
  let x := Z.lxor crc (Z.shiftl b 8) in
  0 <= x < 2 ^ 16
  /\ x / 2 ^ 8 = Z.lxor (crc / 2 ^ 8) b
  /\ (x * 2 ^ 8) mod 2 ^ 16 = (crc * 2 ^ 8) mod 2 ^ 16.
Proof.
  intros Hc Hb x.
  assert (Hs : 0 <= Z.shiftl b 8 < 2 ^ 16)
    by (rewrite Z.shiftl_mul_pow2 by lia; lia).
  split; [apply lxor_bound; lia|]. split.
  - unfold x. rewrite <- !Z.shiftr_div_pow2 by lia.
    rewrite Z.shiftr_lxor, Z.shiftr_shiftl_l by lia.
    reflexivity.
  - apply Z.bits_inj'. intros n Hn.
    rewrite !Z.testbit_mod_pow2 by lia.
    destruct (Z.ltb_spec n 16); [simpl|reflexivity].
    rewrite !Z.mul_pow2_bits by lia.
    destruct (Z.lt_ge_cases n 8);
      [rewrite !(Z.testbit_neg_r _ (n - 8)) by lia; reflexivity|].
    unfold x. rewrite Z.lxor_spec, Z.shiftl_spec by lia.
    rewrite (Z.testbit_neg_r b) by lia.
    apply xorb_false_r.
Qed.

Lemma crc_plain_fold crc b :
  0 <= crc < 2 ^ 16 -> 0 <= b < 2 ^ 8 ->
  crc_plain crc b = crc_plain (Z.lxor crc (Z.shiftl b 8)) 0.
Proof.
  intros Hc Hb.
  destruct (fold_byte crc b Hc Hb) as (Hx & Hh & Hl).
  unfold crc_plain. cbv zeta.
  rewrite Hh, Hl, Z.lxor_0_r. reflexivity.
Qed.

Lemma plain_agrees_all : all_bits 16 plain_agrees 0 = true.
Proof. vm_cast_no_check (eq_refl true). Qed.

Lemma crc_step_xmodem crc b :
  0 <= crc < 2 ^ 16 -> is_byte b -> crc_step crc (Some b) = xmodem_byte crc b.
Proof.
  intros Hc Hb. unfold is_byte in Hb.
  destruct (fold_byte crc b Hc ltac:(lia)) as (Hx & _).
  pose proof (all_below 16 plain_agrees plain_agrees_all _ Hx) as H.
  apply Z.eqb_eq in H.
  rewrite crc_step_plain by assumption. simpl JS.num.
  rewrite Z.mod_small by lia.
  rewrite crc_plain_fold, H by lia.
  unfold xmodem_byte.
  rewrite Z.shiftl_0_l, Z.lxor_0_r. reflexivity.
Qed.

Lemma crc_loop_S packet n begin crc :
  crc_loop packet (S n) begin crc
  = crc_loop packet n (S begin) (crc_step crc (packet !! begin)).
Proof. lazy beta iota delta [crc_loop]; fold crc_loop. reflexivity. Qed.

Lemma crc_loop_range packet n :
  forall begin crc,
  0 <= crc < 2 ^ 16 -> 0 <= crc_loop packet n begin crc < 2 ^ 16.
Proof.
  induction n as [|n IH]; intros begin crc Hc.
  - exact Hc.
  - rewrite crc_loop_S. apply IH. apply crc_step_range. exact Hc.
Qed.

Lemma crc16xmodem_range packet begin len :
  0 <= crc16xmodem packet begin len None < 2 ^ 16.
Proof. unfold crc16xmodem. apply crc_loop_range. lia. Qed.

(** The loop reads the elements of the range and nothing else. *)
Lemma crc_loop_ext packet packet' n :
  forall begin begin' crc,
  (forall j, (j < n)%nat -> packet !! (begin + j)%nat = packet' !! (begin' + j)%nat) ->
  crc_loop packet n begin crc = crc_loop packet' n begin' crc.
Proof.
  induction n as [|n IH]; intros begin begin' crc H; [reflexivity|].
  rewrite !crc_loop_S.
  pose proof (H 0%nat ltac:(lia)) as H0.
  rewrite !Nat.add_0_r in H0. rewrite H0.
  apply IH. intros j Hj.
  specialize (H (S j) ltac:(lia)).
  now rewrite !Nat.add_succ_r in H.
Qed.

Lemma crc_loop_xmodem packet n :
  forall begin crc,
  Forall is_byte packet -> (begin + n <= length packet)%nat ->
  0 <= crc < 2 ^ 16 ->
  crc_loop packet n begin crc
  = fold_left xmodem_byte (take n (drop begin packet)) crc.
Proof.
  induction n as [|n IH]; intros begin crc Hb Hl Hc.
  - now rewrite take_0.
  - destruct (lookup_lt_is_Some_2 packet begin ltac:(lia)) as [b Hlk].
    rewrite crc_loop_S, Hlk, (drop_S _ _ _ Hlk), firstn_cons.
    cbn [fold_left].
    assert (Hbyte : is_byte b).
    { rewrite Forall_lookup in Hb. exact (Hb _ _ Hlk). }
    rewrite <- crc_step_xmodem by assumption.
    apply IH; [assumption | lia | apply crc_step_range; assumption].
Qed.

(** On a whole list of bytes the code computes the CRC16/XMODEM of the
    literature. *)
Lemma crc16xmodem_whole (bytes : list Z) :
  Forall is_byte bytes ->
  crc16xmodem bytes 0 (length bytes) None = xmodem_crc16 bytes.
Proof.
  intros Hb. unfold crc16xmodem, xmodem_crc16. cbv zeta.
  replace (0 + length bytes - 0)%nat with (length bytes) by lia.
  rewrite crc_loop_xmodem by (assumption || lia).
  rewrite drop_0, firstn_all. reflexivity.
Qed.
End CrcFacts.

(** ** The Buffer operations on a frame *)

Section BufferFacts.
Local Open Scope Z_scope.

Lemma land_byte f : is_byte f -> Z.land f 255 = f.
Proof.
  intros Hf. unfold is_byte in Hf. change 255 with (Z.ones 8).
  rewrite Z.land_ones by lia. apply Z.mod_small. lia.
Qed.

Lemma alloc_frame (p : nat) f :
  is_byte f ->
  Buffer_alloc (p + 3 + 2) f = f :: f :: f :: replicate p f ++ [f; f].
Proof.
  intros Hf. unfold Buffer_alloc. rewrite land_byte by assumption.
  replace (p + 3 + 2)%nat with (3 + (p + 2))%nat by lia.
  rewrite (replicate_add 3), (replicate_add p). reflexivity.
Qed.

Lemma set_0 x (l : list Z) v : is_byte v -> Buffer_set (x :: l) 0 v = v :: l.
Proof.
  intros Hv. unfold is_byte in Hv. unfold Buffer_set.
  rewrite Z.mod_small by lia. reflexivity.
Qed.

Lemma set_1 x y (l : list Z) v :
  is_byte v -> Buffer_set (x :: y :: l) 1 v = x :: v :: l.
Proof.
  intros Hv. unfold is_byte in Hv. unfold Buffer_set.
  rewrite Z.mod_small by lia. reflexivity.
Qed.

Lemma set_2 x y z (l : list Z) v :
  is_byte v -> Buffer_set (x :: y :: z :: l) 2 v = x :: y :: v :: l.
Proof.
  intros Hv. unfold is_byte in Hv. unfold Buffer_set.
  rewrite Z.mod_small by lia. reflexivity.
Qed.

Lemma take_min {A} (l : list A) (k p : nat) :
  k = Nat.min p (length l) -> take k l = take p l.
Proof.
  intros ->. destruct (Nat.le_ge_cases p (length l)).
  - now rewrite Nat.min_l.
  - rewrite Nat.min_r by assumption. now rewrite !take_ge by lia.
Qed.

(** Copying [p] bytes from [start] into the payload region of a frame. *)
Lemma copy_frame (source : list Z) h1 h2 h3 (body tail : list Z)
    (start p : nat) :
  (0 < p)%nat -> (start < length source)%nat -> length body = p ->
  Buffer_copy source (h1 :: h2 :: h3 :: body ++ tail) 3 start (start + p)
  = Some (h1 :: h2 :: h3 ::
            take p (drop start source)
            ++ drop (length (take p (drop start source))) body ++ tail).
Proof.
  intros Hp Hs Hb. unfold Buffer_copy.
  set (target := h1 :: h2 :: h3 :: body ++ tail).
  assert (Ht : length target = (3 + p + length tail)%nat).
  { unfold target. cbn [length]. rewrite length_app. lia. }
  rewrite Ht.
  destruct (Nat.leb_spec (3 + p + length tail) 3); [lia|].
  destruct (Nat.ltb_spec (start + p) start); [lia|].
  rewrite andb_false_r.
  destruct (Nat.eqb_spec (start + p) start); [lia|].
  destruct (Nat.eqb_spec (3 + p + length tail) 0); [lia|].
  destruct (Nat.eqb_spec (length source) 0); [lia|].
  cbn [orb].
  destruct (Nat.leb_spec (length source) start); [lia|].
  set (e := if (length source <? start + p)%nat then length source
            else (start + p)%nat).
  assert (He : (e - start)%nat = Nat.min p (length (drop start source))).
  { rewrite length_drop. unfold e.
    destruct (Nat.ltb_spec (length source) (start + p)); lia. }
  destruct (Nat.ltb_spec (3 + p + length tail - 3) (e - start)); [lia|].
  rewrite (take_min _ _ p He).
  f_equal. unfold target.
  change (take 3 (h1 :: h2 :: h3 :: body ++ tail)) with [h1; h2; h3].
  cbn [app]. do 3 f_equal. f_equal.
  change (drop (3 + (e - start)) (h1 :: h2 :: h3 :: body ++ tail))
    with (drop (e - start) (body ++ tail)).
  rewrite length_take, <- He.
  rewrite drop_app_le by lia. reflexivity.
Qed.

Lemma writeUInt16BE_tail (pre : list Z) c1 c2 crc :
  0 <= crc < 2 ^ 16 ->
  Buffer_writeUInt16BE (pre ++ [c1; c2]) crc (length (pre ++ [c1; c2]) - 2)
  = Some (pre ++ [crc / 2 ^ 8; crc mod 2 ^ 8]).
Proof.
  intros Hc. unfold Buffer_writeUInt16BE.
  destruct (Z.ltb_spec crc 0); [lia|].
  destruct (Z.ltb_spec 0xffff crc); [lia|]. cbn [orb].
  rewrite length_app. cbn [length].
  replace (length pre + 2 - 2)%nat with (length pre) by lia.
  destruct (Nat.ltb_spec (length pre + 2) (length pre + 2)); [lia|].
  assert (Hd : 0 <= crc / 2 ^ 8 < 2 ^ 8).
  { split; [apply Z.div_pos; lia | apply Z.div_lt_upper_bound; lia]. }
  rewrite ushr_small by lia.
  change 0xff with (Z.ones 8). rewrite and_mask by lia.
  unfold Buffer_set.
  rewrite (Z.mod_small (crc / 2 ^ 8)) by lia.
  rewrite Zmod_mod.
  rewrite (insert_app_r_alt pre _ (length pre)) by lia.
  rewrite (insert_app_r_alt pre _ (length pre + 1)) by lia.
  replace (length pre - length pre)%nat with 0%nat by lia.
  replace (length pre + 1 - length pre)%nat with 1%nat by lia.
  reflexivity.
Qed.

Lemma crc_of_payload h1 h2 h3 (payload tail : list Z) :
  crc16xmodem (h1 :: h2 :: h3 :: payload ++ tail) 3 (length payload) None
  = crc16xmodem payload 0 (length payload) None.
Proof.
  unfold crc16xmodem.
  replace (3 + length payload - 3)%nat with (length payload) by lia.
  replace (0 + length payload - 0)%nat with (length payload) by lia.
  apply crc_loop_ext. intros j Hj.
  change ((h1 :: h2 :: h3 :: payload ++ tail) !! (3 + j)%nat)
    with ((payload ++ tail) !! j).
  rewrite lookup_app_l by assumption. reflexivity.
Qed.
End BufferFacts.

(** ** The packets of [splitFile] in closed form *)

Section SplitFacts.

Lemma option_bind_Some {A B} (f : A -> option B) (x : A) :
  (Some x ≫= f) = f x.
Proof. reflexivity. Qed.

Lemma length_chunk_payload buffer p fill start :
  length (chunk_payload buffer p fill start) = p.
Proof.
  unfold chunk_payload. cbv zeta.
  rewrite length_app, length_replicate, length_take. lia.
Qed.

Lemma is_byte_chunk_payload (buffer : list Z) (p : nat) (fill : Z)
    (start : nat) :
  Forall is_byte buffer -> is_byte fill ->
  Forall is_byte (chunk_payload buffer p fill start).
Proof.
  intros Hb Hf. unfold chunk_payload. cbv zeta.
  apply Forall_app. split.
  - apply Forall_take, Forall_drop, Hb.
  - apply Forall_replicate, Hf.
Qed.

Lemma maxPack_lt (L i : nat) :
  i < maxPack_of L <-> PACKET_SIZE_1024 * i < L.
Proof.
  unfold maxPack_of, PACKET_SIZE_1024.
  pose proof (Nat.div_mod_eq (L + 1024 - 1) 1024) as E.
  pose proof (Nat.mod_upper_bound (L + 1024 - 1) 1024 ltac:(lia)) as B.
  set (q := (L + 1024 - 1) / 1024) in *.
  set (r := (L + 1024 - 1) mod 1024) in *.
  lia.
Qed.

Lemma packSize_cases L i :
  packSize_of L i = PACKET_SIZE_128 \/ packSize_of L i = PACKET_SIZE_1024.
Proof. unfold packSize_of. destruct (_ && _); auto. Qed.

(** The loop body on a buffer position inside the file. *)
Lemma frame_ops (buffer : list Z) (p : nat) (fill m s : Z) (start : nat) :
  0 < p -> start < length buffer ->
  is_byte fill -> is_byte m -> is_byte s ->
  (Buffer_copy buffer
     (Buffer_set
        (Buffer_set (Buffer_set (Buffer_alloc (p + 3 + 2) fill) 0 m) 1 s) 2
        (0xff - JS.num
           (Buffer_set (Buffer_set (Buffer_alloc (p + 3 + 2) fill) 0 m) 1 s
              !! 1)))
     3 start (start + p)
   ≫= λ chunk,
        Buffer_writeUInt16BE chunk (crc16xmodem chunk 3 p None)
          (length chunk - 2))
  = Some (framed m s (chunk_payload buffer p fill start)).
Proof.
  intros Hp Hs Hf Hm Hsb.
  rewrite alloc_frame, set_0, set_1 by assumption.
  change (JS.num ((m :: s :: fill :: replicate p fill ++ [fill; fill]) !! 1))
    with s.
  rewrite set_2 by (unfold is_byte in *; lia).
  rewrite copy_frame by (rewrite ?length_replicate; lia).
  rewrite option_bind_Some.
  rewrite drop_replicate.
  rewrite (app_assoc (take p (drop start buffer))).
  change (take p (drop start buffer)
          ++ replicate (p - length (take p (drop start buffer))) fill)
    with (chunk_payload buffer p fill start).
  pose proof (length_chunk_payload buffer p fill start) as Hl.
  generalize dependent (chunk_payload buffer p fill start).
  intros payload <-.
  rewrite crc_of_payload.
  change (m :: s :: (255 - s)%Z :: payload ++ [fill; fill])
    with ((m :: s :: (255 - s)%Z :: payload) ++ [fill; fill]).
  rewrite writeUInt16BE_tail by apply crc16xmodem_range.
  reflexivity.
Qed.

Lemma splitFile_chunk_eq (buffer : list Z) (i : nat) :
  i < maxPack_of (length buffer) ->
  splitFile_chunk buffer (length buffer) (maxPack_of (length buffer)) i
  = Some (data_packet buffer i).
Proof.
  intros Hi. apply maxPack_lt in Hi.
  unfold splitFile_chunk, data_packet, packSize_of, is_last_of. cbv zeta.
  set (last := i + 1 =? maxPack_of (length buffer)).
  set (p := if last && (length buffer - i * PACKET_SIZE_1024 <=? 128)
            then PACKET_SIZE_128 else PACKET_SIZE_1024).
  change (JS.and (Z.of_nat (i + 1)) 255)
    with (JS.and (Z.of_nat (i + 1)) (Z.ones 8)).
  rewrite and_mask by lia.
  apply frame_ops.
  - unfold p, PACKET_SIZE_128, PACKET_SIZE_1024. destruct (_ && _); lia.
  - exact Hi.
  - unfold is_byte. destruct last; lia.
  - unfold is_byte, STX, SOH. destruct (p =? PACKET_SIZE_1024); lia.
  - unfold is_byte. apply Z.mod_pos_bound. lia.
Qed.

Lemma mapM_seq_Some {A} (f : nat -> option A) (g : nat -> A) (n : nat) :
  forall start,
  (forall i, start <= i < start + n -> f i = Some (g i)) ->
  mapM f (List.seq start n) = Some (map g (List.seq start n)).
Proof.
  induction n as [|n IH]; intros start H; [reflexivity|].
  cbn [List.seq mapM map].
  rewrite (H start) by lia. rewrite option_bind_Some.
  rewrite (IH (S start)) by (intros; apply H; lia).
  reflexivity.
Qed.

Lemma splitFile_eq (buffer : list Z) :
  splitFile buffer
  = Some (map (data_packet buffer) (List.seq 0 (maxPack_of (length buffer)))).
Proof.
  unfold splitFile. cbv zeta. fold (maxPack_of (length buffer)).
  apply mapM_seq_Some. intros i Hi.
  apply splitFile_chunk_eq. lia.
Qed.

Lemma length_framed m s (payload : list Z) :
  length (framed m s payload) = 3 + length payload + 2.
Proof.
  unfold framed. cbv zeta. rewrite !length_app. cbn [length]. lia.
Qed.

Lemma payload_of_framed m s (payload : list Z) :
  payload_of (framed m s payload) = payload.
Proof.
  unfold payload_of. rewrite length_framed.
  unfold framed. cbv zeta.
  rewrite drop_app_length'; [|reflexivity].
  replace (3 + length payload + 2 - 5) with (length payload) by lia.
  apply take_app_length.
Qed.

Lemma trailer_of_framed m s (payload : list Z) :
  trailer_of (framed m s payload)
  = let crc := crc16xmodem payload 0 (length payload) None in
    [(crc / 2 ^ 8)%Z; (crc mod 2 ^ 8)%Z].
Proof.
  unfold trailer_of. rewrite length_framed.
  unfold framed. cbv zeta. rewrite app_assoc.
  apply drop_app_length'. rewrite length_app. cbn [length]. lia.
Qed.

Lemma crc_of_framed m s (payload : list Z) :
  crc16xmodem (framed m s payload) 3 (length payload) None
  = crc16xmodem payload 0 (length payload) None.
Proof. unfold framed. cbv zeta. cbn [app]. apply crc_of_payload. Qed.

Lemma packets_lookup (buffer : list Z) (packets : list (list Z)) i packet :
  splitFile buffer = Some packets -> packets !! i = Some packet ->
  length packets = maxPack_of (length buffer)
  /\ i < maxPack_of (length buffer) /\ packet = data_packet buffer i.
Proof.
  rewrite splitFile_eq. intros [= <-] Hi.
  rewrite length_map, length_seq. split; [reflexivity|].
  rewrite list_lookup_fmap in Hi.
  destruct (List.seq 0 (maxPack_of (length buffer)) !! i) as [j|] eqn:E;
    [|discriminate].
  apply lookup_seq in E as [-> Hlt]. simpl in Hi.
  split; [exact Hlt | congruence].
Qed.

(** A packet before the last carries 1024 bytes of the file. *)
Lemma packSize_inner (L i : nat) :
  i + 1 < maxPack_of L ->
  is_last_of L i = false /\ packSize_of L i = PACKET_SIZE_1024
  /\ PACKET_SIZE_1024 * i + PACKET_SIZE_1024 <= L.
Proof.
  intros H. unfold packSize_of, is_last_of.
  destruct (Nat.eqb_spec (i + 1) (maxPack_of L)); [lia|].
  split; [reflexivity|]. split; [reflexivity|].
  apply maxPack_lt in H. lia.
Qed.

(** The last packet carries what is left of the file. *)
Lemma packSize_last (L i : nat) :
  i + 1 = maxPack_of L ->
  is_last_of L i = true
  /\ 0 < L - PACKET_SIZE_1024 * i <= packSize_of L i
  /\ L - PACKET_SIZE_1024 * i <= PACKET_SIZE_1024
  /\ (packSize_of L i = PACKET_SIZE_128 <-> L - PACKET_SIZE_1024 * i <= 128).
Proof.
  intros H. unfold packSize_of, is_last_of.
  destruct (Nat.eqb_spec (i + 1) (maxPack_of L)); [|lia].
  assert (H1 : PACKET_SIZE_1024 * i < L) by (apply maxPack_lt; lia).
  assert (H2 : ~ PACKET_SIZE_1024 * (i + 1) < L)
    by (rewrite <- maxPack_lt; lia).
  cbn [andb].
  replace (i * PACKET_SIZE_1024) with (PACKET_SIZE_1024 * i) by lia.
  unfold PACKET_SIZE_1024, PACKET_SIZE_128 in *.
  destruct (Nat.leb_spec (L - 1024 * i) 128); lia.
Qed.
End SplitFacts.

Section SplitPayloads.

Lemma payload_inner (buffer : list Z) (i : nat) :
  i + 1 < maxPack_of (length buffer) ->
  payload_of (data_packet buffer i)
  = take PACKET_SIZE_1024 (drop (PACKET_SIZE_1024 * i) buffer)
  /\ length (payload_of (data_packet buffer i)) = PACKET_SIZE_1024.
Proof.
  intros H. destruct (packSize_inner _ _ H) as (_ & E & Hle).
  unfold data_packet. cbv zeta.
  rewrite payload_of_framed, length_chunk_payload, E. split; [|reflexivity].
  unfold chunk_payload. cbv zeta. rewrite length_take, length_drop.
  replace (PACKET_SIZE_1024
           - Nat.min PACKET_SIZE_1024 (length buffer - PACKET_SIZE_1024 * i))
    with 0 by lia.
  apply app_nil_r.
Qed.

Lemma payload_last (buffer : list Z) (i : nat) :
  i + 1 = maxPack_of (length buffer) ->
  let rest := drop (PACKET_SIZE_1024 * i) buffer in
  let p := packSize_of (length buffer) i in
  payload_of (data_packet buffer i)
  = rest ++ replicate (p - length rest) 0x1A%Z
  /\ length (payload_of (data_packet buffer i)) = p
  /\ 0 < length rest <= p
  /\ length rest <= PACKET_SIZE_1024
  /\ (p = PACKET_SIZE_128 <-> length rest <= 128)
  /\ (p = PACKET_SIZE_128 \/ p = PACKET_SIZE_1024).
Proof.
  intros H rest p. destruct (packSize_last _ _ H) as (E & Hr & Hk & Hc).
  fold p in Hr, Hc.
  assert (Hl : length rest = length buffer - PACKET_SIZE_1024 * i)
    by (unfold rest; apply length_drop).
  unfold data_packet. cbv zeta.
  rewrite payload_of_framed, length_chunk_payload, E. fold p.
  unfold chunk_payload. cbv zeta. fold rest.
  rewrite (take_ge rest p) by lia.
  repeat split; try lia; try tauto.
  apply packSize_cases.
Qed.

Lemma concat_inner (buffer : list Z) (k : nat) :
  k < maxPack_of (length buffer) ->
  concat (map (fun i => payload_of (data_packet buffer i)) (List.seq 0 k))
  = take (PACKET_SIZE_1024 * k) buffer.
Proof.
  induction k as [|k IH]; intros Hk.
  - rewrite Nat.mul_0_r. reflexivity.
  - rewrite seq_S, map_app, concat_app, IH by lia.
    cbn [map concat Nat.add]. rewrite app_nil_r.
    destruct (payload_inner buffer k ltac:(lia)) as [-> _].
    rewrite take_take_drop. f_equal. lia.
Qed.

Lemma maxPack_0 (L : nat) : maxPack_of L = 0 <-> L = 0.
Proof.
  pose proof (maxPack_lt L 0) as H.
  rewrite Nat.mul_0_r in H. lia.
Qed.

(** The number of packets is the ceiling of [L / 1024]. *)
Lemma maxPack_ceil (L : nat) :
  0 < L ->
  PACKET_SIZE_1024 * (maxPack_of L - 1) < L <= PACKET_SIZE_1024 * maxPack_of L.
Proof.
  intros HL.
  pose proof (maxPack_lt L (maxPack_of L - 1)) as H1.
  pose proof (maxPack_lt L (maxPack_of L)) as H2.
  pose proof (maxPack_0 L). lia.
Qed.
End SplitPayloads.

(** ** Writing text into a buffer, and reading it back *)

Section HeaderFacts.

Lemma utf8_groups_ascii (t : list Z) :
  ascii_text t -> utf8_groups t = map (fun c => [c]) t.
Proof.
  unfold utf8_groups.
  induction 1 as [|c t Hc Ht IH]; [reflexivity|].
  cbn [utf8_groups_from map]. unfold utf8_code_point.
  destruct (Z.ltb_spec 0xD7FF c); [lia|].
  destruct (Z.ltb_spec c 0x80); [|lia].
  cbn [andb]. now rewrite IH.
Qed.

(** Surrogates without their partner: a lead followed by a lead gives
    one U+FFFD, the second lead being dropped at the end of the string; a
    pair gives the four bytes of its code point. *)
Example utf8_surrogates :
  fitting (utf8_groups [0xD800; 0xD800]%Z) 130 = replacement
  /\ fitting (utf8_groups [0xD800]%Z) 130 = replacement
  /\ fitting (utf8_groups [0xD800; 0x61]%Z) 130 = replacement ++ [0x61%Z]
  /\ fitting (utf8_groups [0xD83D; 0xDE00]%Z) 130 = [0xF0; 0x9F; 0x98; 0x80]%Z.
Proof. repeat split; reflexivity. Qed.

Lemma fitting_singletons (t : list Z) :
  forall room, length t <= room -> fitting (map (fun c => [c]) t) room = t.
Proof.
  induction t as [|c t IH]; intros room H; [reflexivity|].
  cbn [map fitting length] in *.
  destruct (Nat.leb_spec 1 room); [|lia].
  cbn [app]. now rewrite IH by lia.
Qed.

(** Text written over zeros. *)
Lemma write_zeros (pre t : list Z) (k : nat) (post : list Z) :
  ascii_text t -> length t <= k ->
  Buffer_write (pre ++ replicate k 0%Z ++ post) t (length pre)
  = Some (pre ++ t ++ replicate (k - length t) 0%Z ++ post).
Proof.
  intros Ht Hk. unfold Buffer_write.
  rewrite !length_app, length_replicate.
  destruct (Nat.ltb_spec (length pre + (k + length post)) (length pre));
    [lia|].
  rewrite utf8_groups_ascii, fitting_singletons by (assumption || lia).
  rewrite take_app_length.
  rewrite drop_app_ge, drop_app_le by (rewrite ?length_replicate; lia).
  rewrite drop_replicate.
  replace (k - (length pre + length t - length pre)) with (k - length t)
    by lia.
  reflexivity.
Qed.

Lemma digit_units (u : Decimal.uint) :
  Forall (fun c => (0x30 <= c <= 0x39)%Z) (uint_units u).
Proof.
  induction u; cbn [uint_units]; constructor;
    try assumption; unfold digit_unit; lia.
Qed.

Lemma unit_digit_unit (d : nat) :
  d <= 9 -> unit_digit (digit_unit d) = Some d.
Proof.
  intros Hd. unfold unit_digit, digit_unit.
  destruct (Z.leb_spec 0x30 (0x30 + Z.of_nat d)); [|lia].
  destruct (Z.leb_spec (0x30 + Z.of_nat d) 0x39); [|lia].
  cbn [andb]. f_equal. lia.
Qed.

Lemma parse_decimal_units (u : Decimal.uint) :
  forall acc, parse_decimal acc (uint_units u) = Some (Nat.of_uint_acc u acc).
Proof.
  induction u; intros acc; cbn [uint_units parse_decimal Nat.of_uint_acc];
    [reflexivity|..];
    rewrite unit_digit_unit by lia;
    rewrite option_bind_Some, IHu, Nat.tail_mul_spec;
    do 2 f_equal; lia.
Qed.

Lemma parse_toString (n : nat) : parse_decimal 0 (toString n) = Some n.
Proof.
  unfold toString. rewrite parse_decimal_units.
  f_equal. apply Unsigned.of_to.
Qed.

Lemma until_app (stop : Z) (pre post : list Z) :
  Forall (fun c => c <> stop) pre ->
  until stop (pre ++ stop :: post) = Some (pre, post).
Proof.
  induction 1 as [|c pre Hc Hp IH]; cbn [app until].
  - now rewrite Z.eqb_refl.
  - destruct (Z.eqb_spec c stop); [contradiction|].
    rewrite IH. reflexivity.
Qed.

Lemma parse_header_layout (name : list Z) (n : nat) (pad : list Z) :
  ascii_name name ->
  parse_header (name ++ [0%Z] ++ toString n ++ [0x20%Z] ++ pad)
  = Some (name, n).
Proof.
  intros Hn. unfold parse_header.
  cbn [app].
  rewrite until_app
    by (eapply Forall_impl; [exact Hn | cbv beta; intros; lia]).
  rewrite option_bind_Some. cbv beta iota.
  rewrite until_app.
  2:{ unfold toString. eapply Forall_impl; [apply digit_units|].
      cbv beta. intros; lia. }
  rewrite option_bind_Some. cbv beta iota.
  rewrite parse_toString. reflexivity.
Qed.

(** The checksum and the trailer put on a frame. *)
Lemma seal_frame (m s : Z) (P : list Z) (n : nat) (f1 f2 : Z) :
  length P = n ->
  Buffer_writeUInt16BE (m :: s :: (0xff - s)%Z :: P ++ [f1; f2])
    (crc16xmodem (m :: s :: (0xff - s)%Z :: P ++ [f1; f2]) 3 n None)
    (length (m :: s :: (0xff - s)%Z :: P ++ [f1; f2]) - 2)
  = Some (framed m s P).
Proof.
  intros <-. rewrite crc_of_payload.
  change (m :: s :: (255 - s)%Z :: P ++ [f1; f2])
    with ((m :: s :: (255 - s)%Z :: P) ++ [f1; f2]).
  rewrite writeUInt16BE_tail by apply crc16xmodem_range.
  reflexivity.
Qed.

Lemma write_name (name : list Z) :
  ascii_text name -> length name <= 128 ->
  Buffer_write (SOH :: 0%Z :: 0xff%Z :: replicate 128 0%Z ++ [0%Z; 0%Z]) name 3
  = Some (SOH :: 0%Z :: 0xff%Z
            :: name ++ replicate (128 - length name) 0%Z ++ [0%Z; 0%Z]).
Proof.
  intros Ha Hl.
  exact (write_zeros [SOH; 0%Z; 0xff%Z] name 128 [0%Z; 0%Z] Ha Hl).
Qed.

Lemma write_size (name t : list Z) :
  ascii_text t -> length name + 1 + length t <= 128 ->
  Buffer_write
    (SOH :: 0%Z :: 0xff%Z
       :: name ++ replicate (128 - length name) 0%Z ++ [0%Z; 0%Z])
    t (3 + (length name + 1))
  = Some (SOH :: 0%Z :: 0xff%Z
            :: (name ++ [0%Z] ++ t
                ++ replicate (128 - (length name + 1 + length t)) 0%Z)
               ++ [0%Z; 0%Z]).
Proof.
  intros Ha Hl.
  pose proof (write_zeros ([SOH; 0%Z; 0xff%Z] ++ name ++ [0%Z]) t
                (128 - length name - 1) [0%Z; 0%Z] Ha ltac:(lia)) as H.
  rewrite !length_app in H. cbn [length] in H.
  replace (128 - length name) with (S (128 - length name - 1)) by lia.
  cbn [replicate].
  replace (3 + (length name + 1)) with (3 + (length name + 1))%nat in H
    by reflexivity.
  rewrite <- !app_assoc in H. cbn [app] in H |- *.
  rewrite H. rewrite <- !app_assoc. cbn [app]. rewrite <- !app_assoc.
  replace (128 - length name - 1 - length t)
    with (128 - (length name + 1 + length t)) by lia.
  reflexivity.
Qed.

Lemma header_layout_fits (name : list Z) (n : nat) :
  length name + 1 + length (toString n) + 1 <= 128 ->
  header_layout name n
  = name ++ [0%Z] ++ (toString n ++ [0x20%Z])
    ++ replicate (128 - (length name + 1 + length (toString n ++ [0x20%Z]))) 0%Z
  /\ length (header_layout name n) = 128.
Proof.
  intros H. unfold header_layout. cbv zeta.
  rewrite !length_app. cbn [length].
  split; [|rewrite length_replicate; lia].
  rewrite <- !app_assoc.
  replace (128 - (length name + (1 + (length (toString n) + 1))))
    with (128 - (length name + 1 + (length (toString n) + 1))) by lia.
  reflexivity.
Qed.

Lemma ascii_name_text (name : list Z) : ascii_name name -> ascii_text name.
Proof.
  intros Ha. eapply Forall_impl; [exact Ha | cbv beta; intros; lia].
Qed.

Lemma is_byte_ascii_text (t : list Z) : ascii_text t -> Forall is_byte t.
Proof.
  intros Ha. eapply Forall_impl; [exact Ha|].
  cbv beta. unfold is_byte. intros; lia.
Qed.

Lemma ascii_text_toString (n : nat) : ascii_text (toString n).
Proof.
  unfold toString. eapply Forall_impl; [apply digit_units|].
  cbv beta. intros; lia.
Qed.

Lemma makeFileHeader_eq (name : list Z) (n : nat) :
  name <> [] -> ascii_text name -> n <> 0 ->
  length name + 1 + length (toString n) + 1 <= 128 ->
  makeFileHeader name n = Some (framed SOH 0 (header_layout name n)).
Proof.
  intros Hne Ha Hn Hfit.
  destruct (header_layout_fits name n Hfit) as [El Ell].
  unfold makeFileHeader. cbv zeta.
  rewrite (alloc_frame 128 0%Z) by (unfold is_byte; lia).
  rewrite set_0, set_1, set_2 by (unfold is_byte, SOH; lia).
  rewrite !bool_decide_eq_true_2 by assumption.
  rewrite write_name; [|exact Ha | lia].
  rewrite !option_bind_Some. cbv beta iota.
  rewrite write_size.
  2:{ apply Forall_app. split.
      - unfold toString. eapply Forall_impl; [apply digit_units|].
        cbv beta. intros; lia.
      - repeat constructor; lia. }
  2:{ rewrite length_app. cbn [length]. lia. }
  rewrite option_bind_Some, <- El.
  apply (seal_frame SOH 0 (header_layout name n) 128 0 0 Ell).
Qed.

(** With a size of 0 the size text is skipped. *)
Lemma makeFileHeader_zero (name : list Z) :
  name <> [] -> ascii_text name -> length name + 1 <= 128 ->
  makeFileHeader name 0
  = Some (framed SOH 0 (name ++ replicate (128 - length name) 0%Z)).
Proof.
  intros Hne Ha Hfit.
  unfold makeFileHeader. cbv zeta.
  rewrite (alloc_frame 128 0%Z) by (unfold is_byte; lia).
  rewrite set_0, set_1, set_2 by (unfold is_byte, SOH; lia).
  rewrite (bool_decide_eq_true_2 (name <> [])) by assumption.
  rewrite (bool_decide_eq_false_2 (0 <> 0)) by (intros H; apply H; reflexivity).
  rewrite write_name; [|exact Ha | lia].
  rewrite !option_bind_Some. cbv beta iota.
  rewrite (app_assoc name).
  apply (seal_frame SOH 0).
  rewrite length_app, length_replicate. lia.
Qed.
End HeaderFacts.

(** ** The driver *)

Section DriverFacts.
Variable env : Env.

Ltac split_ch ch :=
  destruct (Z.eqb_spec ch CRC16) as [->|?];
  [|destruct (Z.eqb_spec ch ACK) as [->|?];
    [|destruct (Z.eqb_spec ch NAK) as [->|?];
      [|destruct (Z.eqb_spec ch CA) as [->|?]]]].

(** One case at a time: the first test that can be decided is, and the
    state is simplified before the next one is looked at. *)
Ltac driver_step :=
  match goal with
  | |- context [if ?b then _ else _] =>
      lazymatch b with
      | context [if _ then _ else _] => fail
      | context [match _ with _ => _ end] => fail
      | context [sendPacket] => fail
      | context [close] => fail
      | context [finish] => fail
      | _ => destruct b eqn:?
      end
  | |- context [match ?o with Some _ => _ | None => _ end] =>
      lazymatch o with
      | context [if _ then _ else _] => fail
      | _ => destruct o eqn:?
      end
  end.

Ltac driver_cases :=
  repeat (simpl;
          first [ driver_step
                | progress unfold sendPacket, close, finish, sendBuffer ]);
  simpl.

Ltac driver_done :=
  simpl; rewrite ?orb_false_r, ?orb_true_r, ?andb_false_r, ?andb_true_r;
  repeat match goal with
    | H : (_ =? _)%Z = true |- _ => apply Z.eqb_eq in H
    | H : (_ =? _)%Z = false |- _ => apply Z.eqb_neq in H
    end;
  try reflexivity; try discriminate; try contradiction; try congruence.

Lemma handle_byte_finished (st : State) (ch : Z) :
  finished st = true -> handle_byte env st ch = st.
Proof. intros H. unfold handle_byte. rewrite H. reflexivity. Qed.

Lemma handle_chunk_finished (bytes : list Z) :
  forall st, finished st = true -> handle_chunk env st bytes = st.
Proof.
  induction bytes as [|ch bytes IH]; intros st H; [reflexivity|].
  unfold handle_chunk. cbn [fold_left].
  rewrite handle_byte_finished by assumption. apply IH, H.
Qed.

Lemma torn_handle_byte (st : State) (ch : Z) :
  torn_b (handle_byte env st ch) = torn_b st || tear_byte st ch.
Proof.
  destruct st as [sq ss sd fin wb pc ws pg rs rj cn].
  unfold torn_b, tear_byte, handle_byte. simpl.
  destruct fin; [reflexivity|]. simpl.
  split_ch ch; driver_cases; driver_done.
Qed.

Lemma torn_handle_chunk (bytes : list Z) :
  forall st,
  torn_b (handle_chunk env st bytes) = torn_b st || tears_down env st bytes.
Proof.
  induction bytes as [|ch bytes IH]; intros st.
  - cbn [tears_down]. now rewrite orb_false_r.
  - unfold handle_chunk in *. cbn [fold_left tears_down].
    rewrite IH, torn_handle_byte, orb_assoc. reflexivity.
Qed.

Lemma tears_down_app (a b : list Z) :
  forall st,
  tears_down env st (a ++ b)
  = tears_down env st a || tears_down env (handle_chunk env st a) b.
Proof.
  induction a as [|ch a IH]; intros st; [reflexivity|].
  cbn [app tears_down]. rewrite IH, orb_assoc. reflexivity.
Qed.

Lemma tears_down_CA (bytes : list Z) :
  forall st, In CA bytes -> tears_down env st bytes = true.
Proof.
  induction bytes as [|ch bytes IH]; intros st H; [destruct H|].
  cbn [tears_down]. destruct H as [->|H].
  - reflexivity.
  - rewrite (IH _ H). apply orb_true_r.
Qed.

Lemma torn_readData_true (chunks : list (list Z)) (e : StreamEnd) :
  forall st, torn_b st = true -> torn_b (readData env st chunks e) = true.
Proof.
  induction chunks as [|c chunks IH]; intros st H; cbn [readData].
  - destruct e; exact H.
  - assert (H' : torn_b (handle_chunk env st c) = true)
      by (rewrite torn_handle_chunk, H; reflexivity).
    destruct (0 <? cancels (handle_chunk env st c)); [exact H'|].
    apply IH, H'.
Qed.

Lemma torn_readData (chunks : list (list Z)) (e : StreamEnd) :
  forall st,
  torn_b st = false ->
  torn_b (readData env st chunks e) = tears_down env st (concat chunks).
Proof.
  induction chunks as [|c chunks IH]; intros st H; cbn [readData concat].
  - destruct e; exact H.
  - rewrite tears_down_app.
    pose proof (torn_handle_chunk c st) as Hc. rewrite H in Hc.
    cbn [orb] in Hc. rewrite <- Hc.
    destruct (0 <? cancels (handle_chunk env st c)) eqn:Hcn.
    + assert (Ht : torn_b (handle_chunk env st c) = true)
        by (unfold torn_b; rewrite Hcn; apply orb_true_r).
      rewrite Ht. reflexivity.
    + destruct (torn_b (handle_chunk env st c)) eqn:Ht; cbn [orb].
      * apply torn_readData_true, Ht.
      * apply IH, Ht.
Qed.

Lemma outcome_inv_handle_byte (st : State) (ch : Z) :
  outcome_inv env st -> outcome_inv env (handle_byte env st ch).
Proof.
  destruct st as [sq ss sd fin wb pc ws pg rs rj cn].
  unfold outcome_inv, outcome_of, handle_byte. simpl.
  destruct fin; [trivial|]. simpl. intros ->.
  split_ch ch; driver_cases; driver_done.
Qed.

Lemma outcome_inv_handle_chunk (bytes : list Z) :
  forall st, outcome_inv env st -> outcome_inv env (handle_chunk env st bytes).
Proof.
  induction bytes as [|ch bytes IH]; intros st H; [exact H|].
  unfold handle_chunk in *. cbn [fold_left].
  apply IH, outcome_inv_handle_byte, H.
Qed.

Lemma outcome_inv_readData (chunks : list (list Z)) (e : StreamEnd) :
  forall st, outcome_inv env st -> outcome_inv env (readData env st chunks e).
Proof.
  induction chunks as [|c chunks IH]; intros st H; cbn [readData].
  - destruct e; exact H.
  - pose proof (outcome_inv_handle_chunk c st H) as H'.
    destruct (0 <? cancels (handle_chunk env st c)); [exact H'|].
    apply IH, H'.
Qed.

Lemma outcome_inv_finish (st : State) :
  outcome_inv env st ->
  outcome_inv env (finish env st) /\ finished (finish env st) = true.
Proof.
  destruct st as [sq ss sd fin wb pc ws pg rs rj cn].
  unfold outcome_inv, outcome_of, finish. simpl.
  destruct fin; simpl; intros ->; split; reflexivity.
Qed.

Lemma finish_writtenBytes (st : State) :
  writtenBytes (finish env st) = writtenBytes st.
Proof. unfold finish. destruct (negb (finished st)); reflexivity. Qed.

Lemma iter_finish (n : nat) (st : State) :
  outcome_inv env st ->
  outcome_inv env (Nat.iter n (finish env) st)
  /\ finished (Nat.iter n (finish env) st) = finished st || (0 <? n).
Proof.
  intros H. induction n as [|n [IH1 IH2]].
  - split; [exact H | now rewrite orb_false_r].
  - destruct (outcome_inv_finish _ IH1) as [H1 H2].
    change (Nat.iter (S n) (finish env) st)
      with (finish env (Nat.iter n (finish env) st)).
    split; [exact H1|]. rewrite H2.
    change (0 <? S n) with true. now rewrite orb_true_r.
Qed.

Lemma run_callbacks_spec (st : State) :
  outcome_inv env st ->
  outcome_inv env (run_callbacks env st)
  /\ finished (run_callbacks env st) = torn_b st.
Proof.
  intros H. destruct (iter_finish (cancels st) st H) as [H1 H2].
  unfold run_callbacks, torn_b.
  split; [exact H1 | exact H2].
Qed.

Lemma initial_inv : outcome_inv env initial /\ torn_b initial = false.
Proof. split; reflexivity. Qed.

(** The outcome is produced when, and only when, [close] was called. *)
Lemma run_resolved (chunks : list (list Z)) (e : StreamEnd) :
  let st := run env chunks e in
  finished st = tears_down env initial (concat chunks)
  /\ resolved st = if finished st then [outcome_of env st] else [].
Proof.
  destruct initial_inv as [Hi Ht].
  pose proof (outcome_inv_readData chunks e initial Hi) as H.
  destruct (run_callbacks_spec _ H) as [H1 H2].
  unfold run. cbv zeta. split; [|exact H1].
  rewrite H2. apply torn_readData, Ht.
Qed.

Ltac nat_tests :=
  repeat match goal with
    | H : (_ <? _) = true |- _ => apply Nat.ltb_lt in H
    | H : (_ <? _) = false |- _ => apply Nat.ltb_ge in H
    | H : (_ <=? _) = true |- _ => apply Nat.leb_le in H
    | H : (_ <=? _) = false |- _ => apply Nat.leb_gt in H
    | H : (_ =? _) = true |- _ => apply Nat.eqb_eq in H
    | H : (_ =? _) = false |- _ => apply Nat.eqb_neq in H
    end.

Lemma written_inv_handle_byte (st : State) (ch : Z) :
  written_inv env st -> written_inv env (handle_byte env st ch).
Proof.
  destruct st as [sq ss sd fin wb pc ws pg rs rj cn].
  unfold written_inv, handle_byte. simpl.
  destruct fin; [trivial|]. simpl. intros H.
  split_ch ch; driver_cases; nat_tests;
    unfold PACKET_SIZE_1024 in *; lia.
Qed.

Lemma written_inv_handle_chunk (bytes : list Z) :
  forall st, written_inv env st -> written_inv env (handle_chunk env st bytes).
Proof.
  induction bytes as [|ch bytes IH]; intros st H; [exact H|].
  unfold handle_chunk in *. cbn [fold_left].
  apply IH, written_inv_handle_byte, H.
Qed.

Lemma written_inv_initial : written_inv env initial.
Proof. left. reflexivity. Qed.

(** The ACK of a data packet. *)
Lemma ack_data_packet (st : State) :
  written_inv env st ->
  finished st = false -> session st = true -> sending st = true ->
  0 < seq st < length (file_trunks env) ->
  let st' := handle_byte env st ACK in
  writtenBytes st' = Nat.min ((seq st + 1) * 1024) (totalBytes env)
  /\ seq st' = seq st + 1
  /\ writes st' = writes st ++ [default [EOT] (file_trunks env !! (seq st + 1))]
  /\ finished st' = false /\ session st' = true /\ sending st' = true.
Proof.
  destruct st as [sq ss sd fin wb pc ws pg rs rj cn].
  unfold written_inv, handle_byte. simpl.
  intros Hw -> -> -> Hs. simpl.
  destruct (Nat.eqb_spec sq 0); [lia|].
  destruct (Nat.ltb_spec sq (length (file_trunks env))); [|lia].
  driver_cases; nat_tests;
    repeat match goal with
      | H : file_trunks env !! _ = None |- _ =>
          apply lookup_ge_None in H
      | H : file_trunks env !! _ = Some _ |- _ => rewrite H
      | |- context [file_trunks env !! ?i] =>
          rewrite (proj2 (lookup_ge_None (file_trunks env) i)) by lia
      end;
    unfold PACKET_SIZE_1024 in *; simpl; repeat split; try reflexivity; try lia.
Qed.

Lemma core_finish (st : State) :
  finished st = true -> core (finish env st) = core st.
Proof.
  destruct st as [sq ss sd fin wb pc ws pg rs rj cn]. simpl.
  intros ->. reflexivity.
Qed.

Lemma core_iter_finish (n : nat) (st : State) :
  finished st = true -> core (Nat.iter n (finish env) st) = core st.
Proof.
  intros H. induction n as [|n IH]; [reflexivity|].
  change (Nat.iter (S n) (finish env) st)
    with (finish env (Nat.iter n (finish env) st)).
  rewrite core_finish, IH; [reflexivity|].
  assert (E := f_equal (fun c => snd (fst (fst (fst (fst (fst c)))))) IH).
  simpl in E. congruence.
Qed.

Lemma core_readData (chunks : list (list Z)) (e : StreamEnd) (st : State) :
  finished st = true -> core (readData env st chunks e) = core st.
Proof.
  intros H. induction chunks as [|c chunks IH]; cbn [readData].
  - destruct e; reflexivity.
  - rewrite handle_chunk_finished by assumption.
    destruct (0 <? cancels st); [reflexivity | exact IH].
Qed.
End DriverFacts.

(** ** Headers for any filename, and the queue of [transfer] *)

Section HeaderAny.

Lemma fitting_length (groups : list (list Z)) :
  forall room, length (fitting groups room) <= room.
Proof.
  induction groups as [|g groups IH]; intros room; cbn [fitting].
  - cbn [length]. lia.
  - destruct (Nat.leb_spec (length g) room); [|cbn [length]; lia].
    rewrite length_app. specialize (IH (room - length g)). lia.
Qed.

Lemma Buffer_write_None (buf t : list Z) (offset : nat) :
  length buf < offset -> Buffer_write buf t offset = None.
Proof.
  intros H. unfold Buffer_write.
  destruct (Nat.ltb_spec (length buf) offset); [reflexivity | lia].
Qed.

(** A write inside the buffer keeps its length and what stands before
    the offset. *)
Lemma Buffer_write_Some (buf t : list Z) (offset : nat) :
  offset <= length buf ->
  exists buf',
    Buffer_write buf t offset = Some buf'
    /\ length buf' = length buf
    /\ take offset buf' = take offset buf.
Proof.
  intros H. unfold Buffer_write.
  destruct (Nat.ltb_spec (length buf) offset); [lia|].
  pose proof (fitting_length (utf8_groups t) (length buf - offset)) as Hf.
  set (bytes := fitting (utf8_groups t) (length buf - offset)) in *.
  eexists. split; [reflexivity|]. split.
  - rewrite !length_app, length_take, length_drop. lia.
  - apply take_app_length'. rewrite length_take. lia.
Qed.

Lemma frame_decompose (b : list Z) (h1 h2 h3 : Z) (n : nat) :
  length b = 3 + n + 2 -> take 3 b = [h1; h2; h3] ->
  exists P c1 c2, b = h1 :: h2 :: h3 :: P ++ [c1; c2] /\ length P = n.
Proof.
  intros Hl Ht.
  destruct b as [|x1 [|x2 [|x3 rest]]]; try discriminate Ht.
  injection Ht as -> -> ->.
  cbn [length] in Hl.
  assert (Hr : length rest = n + 2) by lia.
  assert (Hd : length (drop n rest) = 2) by (rewrite length_drop; lia).
  destruct (drop n rest) as [|c1 [|c2 [|c3 tl]]] eqn:E;
    try discriminate Hd.
  exists (take n rest), c1, c2. split.
  - rewrite <- E, take_drop. reflexivity.
  - rewrite length_take. lia.
Qed.

Lemma seal_any (b : list Z) :
  length b = 133 -> take 3 b = [SOH; 0%Z; 0xff%Z] ->
  exists P,
    length P = 128
    /\ Buffer_writeUInt16BE b (crc16xmodem b 3 128 None) (length b - 2)
       = Some (framed SOH 0 P).
Proof.
  intros Hl Ht.
  destruct (frame_decompose b SOH 0%Z 0xff%Z 128 Hl Ht) as (P & c1 & c2 & -> & HP).
  exists P. split; [exact HP|].
  exact (seal_frame SOH 0 P 128 c1 c2 HP).
Qed.

Lemma seal_region (b : list Z) :
  length b = 133 -> take 3 b = [SOH; 0%Z; 0xff%Z] ->
  Buffer_writeUInt16BE b (crc16xmodem b 3 128 None) (length b - 2)
  = Some (framed SOH 0 (take 128 (drop 3 b))).
Proof.
  intros Hl Ht.
  destruct (frame_decompose b SOH 0%Z 0xff%Z 128 Hl Ht)
    as (P & c1 & c2 & -> & HP).
  change (drop 3 (SOH :: 0%Z :: 255%Z :: P ++ [c1; c2])) with (P ++ [c1; c2]).
  rewrite take_app_length' by (symmetry; exact HP).
  exact (seal_frame SOH 0 P 128 c1 c2 HP).
Qed.

Lemma header_base :
  let B0 := SOH :: 0%Z :: 0xff%Z :: replicate 128 0%Z ++ [0%Z; 0%Z] in
  length B0 = 133 /\ take 3 B0 = [SOH; 0%Z; 0xff%Z].
Proof.
  cbv zeta. split; [|reflexivity].
  cbn [length]. rewrite length_app, length_replicate. reflexivity.
Qed.

(** [makeFileHeader] throws exactly when the size text has to start
    past the end of the buffer; otherwise it returns a sealed frame. *)
Lemma makeFileHeader_cases (name : list Z) (size : nat) :
  (name <> [] /\ size <> 0 /\ 130 <= length name
   /\ makeFileHeader name size = None)
  \/ (~ (name <> [] /\ size <> 0 /\ 130 <= length name)
      /\ exists P, length P = 128
                   /\ makeFileHeader name size = Some (framed SOH 0 P)).
Proof.
  destruct header_base as [HL0 HT0]. cbv zeta in HL0, HT0.
  unfold makeFileHeader. cbv zeta.
  rewrite (alloc_frame 128 0%Z) by (unfold is_byte; lia).
  rewrite set_0, set_1, set_2 by (unfold is_byte, SOH; lia).
  set (B0 := SOH :: 0%Z :: 255%Z :: replicate 128 0%Z ++ [0%Z; 0%Z]) in *.
  assert (Stage1 : exists b1,
    (if bool_decide (name <> []) then
       Buffer_write B0 name 3 ≫= λ payload', Some (payload', 3 + (length name + 1))
     else Some (B0, 3))
    = Some (b1, if bool_decide (name <> []) then 3 + (length name + 1) else 3)
    /\ length b1 = 133 /\ take 3 b1 = [SOH; 0%Z; 255%Z]).
  { destruct (bool_decide (name <> [])).
    - destruct (Buffer_write_Some B0 name 3 ltac:(lia)) as (b1 & E & L1 & T1).
      exists b1. rewrite E, option_bind_Some.
      split; [reflexivity|]. split; congruence.
    - exists B0. split; [reflexivity|]. split; assumption. }
  destruct Stage1 as (b1 & -> & L1 & T1).
  rewrite option_bind_Some. cbv beta iota.
  destruct (seal_any b1 L1 T1) as (P1 & HP1 & S1).
  destruct (bool_decide (size <> 0)) eqn:Hsz.
  - apply bool_decide_eq_true_1 in Hsz.
    destruct (bool_decide (name <> [])) eqn:Hnm.
    + apply bool_decide_eq_true_1 in Hnm.
      destruct (Nat.le_gt_cases 130 (length name)) as [Hlong|Hshort].
      * left. rewrite Buffer_write_None by lia.
        repeat split; assumption.
      * right. split; [lia|].
        destruct (Buffer_write_Some b1 (toString size ++ [32%Z])
                    (3 + (length name + 1)) ltac:(lia)) as (b2 & E & L2 & T2).
        rewrite E, option_bind_Some.
        assert (T3 : take 3 b2 = [SOH; 0%Z; 255%Z]).
        { rewrite <- T1.
          rewrite <- (take_take b2 3 (3 + (length name + 1))), T2 at 1.
          rewrite take_take. f_equal. }
        destruct (seal_any b2 ltac:(congruence) T3) as (P2 & HP2 & S2).
        exists P2. split; assumption.
    + apply bool_decide_eq_false_1 in Hnm.
      right. split; [tauto|].
      destruct (Buffer_write_Some b1 (toString size ++ [32%Z]) 3 ltac:(lia))
        as (b2 & E & L2 & T2).
      rewrite E, option_bind_Some.
      destruct (seal_any b2 ltac:(congruence) ltac:(congruence))
        as (P2 & HP2 & S2).
      exists P2. split; assumption.
  - apply bool_decide_eq_false_1 in Hsz.
    right. split; [tauto|].
    rewrite option_bind_Some. exists P1. split; assumption.
Qed.

(** With a size of 0 nothing follows the name, whatever the name: the
    payload is the bytes that [buf.write] stored for it, cut at the end
    of the region, then zeros. *)
Lemma makeFileHeader_zero_any (name : list Z) :
  let bytes := fitting (utf8_groups name) 130 in
  makeFileHeader name 0
  = Some (framed SOH 0
            (take 128 bytes ++ replicate (128 - length bytes) 0%Z)).
Proof.
  cbv zeta.
  pose proof (fitting_length (utf8_groups name) 130) as Hk.
  set (bytes := fitting (utf8_groups name) 130) in *.
  unfold makeFileHeader. cbv zeta.
  rewrite (alloc_frame 128 0%Z) by (unfold is_byte; lia).
  rewrite set_0, set_1, set_2 by (unfold is_byte, SOH; lia).
  rewrite (bool_decide_eq_false_2 (0 <> 0)) by (intros H; apply H; reflexivity).
  change (SOH :: 0%Z :: 255%Z :: replicate 128 0%Z ++ [0%Z; 0%Z])
    with ([SOH; 0%Z; 255%Z] ++ replicate 130 0%Z).
  assert (Hseal : forall b1 : list Z,
            b1 = [SOH; 0%Z; 255%Z] ++ bytes ++ replicate (130 - length bytes) 0%Z ->
            Buffer_writeUInt16BE b1 (crc16xmodem b1 3 128 None) (length b1 - 2)
            = Some (framed SOH 0
                      (take 128 bytes ++ replicate (128 - length bytes) 0%Z))).
  { intros b1 ->. rewrite seal_region.
    - change (drop 3 ([SOH; 0%Z; 255%Z] ++ ?l)) with l.
      rewrite take_app, take_replicate.
      replace (Nat.min (128 - length bytes) (130 - length bytes))
        with (128 - length bytes) by lia.
      reflexivity.
    - cbn [app length]. rewrite length_app, length_replicate. lia.
    - reflexivity. }
  destruct (bool_decide (name <> [])) eqn:Hn.
  - unfold Buffer_write.
    rewrite length_app, length_replicate. cbn [length].
    change (3 + 130 <? 3) with false. cbv iota.
    change (3 + 130 - 3) with 130. fold bytes.
    rewrite !option_bind_Some. cbv beta iota.
    apply Hseal.
    rewrite take_app_length' by reflexivity.
    rewrite drop_app_ge by (cbn [length]; lia).
    cbn [length]. replace (3 + length bytes - 3) with (length bytes) by lia.
    rewrite drop_replicate. reflexivity.
  - rewrite !option_bind_Some. cbv beta iota.
    apply bool_decide_eq_false_1 in Hn.
    assert (name = []) as -> by (destruct name; [reflexivity|exfalso; apply Hn; discriminate]).
    apply Hseal. reflexivity.
Qed.

Lemma length_data_packet (buffer : list Z) (i : nat) :
  length (data_packet buffer i) = 133 \/ length (data_packet buffer i) = 1029.
Proof.
  unfold data_packet. cbv zeta. rewrite length_framed, length_chunk_payload.
  destruct (packSize_cases (length buffer) i) as [-> | ->];
    unfold PACKET_SIZE_128, PACKET_SIZE_1024; [left | right]; reflexivity.
Qed.

Lemma transfer_queue_Some (name buffer : list Z) (locked callback : bool)
    (env : Env) :
  transfer_queue name buffer locked callback = Some env ->
  exists header,
    makeFileHeader name (length buffer) = Some header
    /\ env = mkEnv name
               (header :: map (data_packet buffer)
                            (List.seq 0 (maxPack_of (length buffer))))
               (length buffer) locked callback.
Proof.
  unfold transfer_queue. cbv zeta. rewrite splitFile_eq.
  destruct (makeFileHeader name (length buffer)) as [header|];
    [|discriminate].
  rewrite !option_bind_Some. intros [= <-].
  exists header. split; reflexivity.
Qed.

Lemma makeFileHeader_None_iff (name : list Z) (size : nat) :
  makeFileHeader name size = None
  <-> name <> [] /\ size <> 0 /\ 130 <= length name.
Proof.
  destruct (makeFileHeader_cases name size)
    as [(H1 & H2 & H3 & E) | (Hn & P & HP & E)]; rewrite E.
  - split; [intros _; repeat split; assumption | reflexivity].
  - split; [discriminate | intros H; contradiction].
Qed.

(** What [transfer] fixes, when the queue can be built. *)
Lemma transfer_queue_facts (name buffer : list Z) (locked callback : bool)
    (env : Env) :
  transfer_queue name buffer locked callback = Some env ->
  filename env = name
  /\ totalBytes env = length buffer
  /\ progressCallback env = callback
  /\ length (file_trunks env) = 1 + (length buffer + 1023) / 1024.
Proof.
  intros He.
  destruct (transfer_queue_Some _ _ _ _ _ He) as (header & Hh & ->).
  cbn [filename totalBytes file_trunks progressCallback].
  do 3 (split; [reflexivity|]).
  cbn [length]. rewrite length_map, length_seq.
  unfold maxPack_of, PACKET_SIZE_1024. do 2 f_equal. lia.
Qed.

Lemma transfer_env_Some (name : list Z) (arg : BufferArg)
    (locked callback : bool) (env : Env) :
  transfer_env name arg locked callback = Some env ->
  exists arrayBuffer,
    BufferArg_buffer arg = Some arrayBuffer
    /\ transfer_queue name arrayBuffer locked callback = Some env.
Proof.
  unfold transfer_env, Buffer_from.
  destruct (BufferArg_buffer arg) as [arrayBuffer|]; [|discriminate].
  rewrite option_bind_Some. intros H. exists arrayBuffer. split; [reflexivity | exact H].
Qed.

Lemma transfer_env_typed (name arrayBuffer : list Z) (o n : nat)
    (locked callback : bool) :
  transfer_env name (TypedArray arrayBuffer o n) locked callback
  = transfer_queue name arrayBuffer locked callback.
Proof. reflexivity. Qed.
End HeaderAny.

(** C1.  Started from 0 on a range inside a buffer of bytes,
    [crc16xmodem] returns the CRC16/XMODEM (polynomial 0x1021, not
    reflected) of the bytes of the range, a number of 16 bits; the empty
    range gives 0 and the digits "123456789" give 0x31C3. *)
Theorem crc16xmodem_correct (buffer : Buffer) (begin len : nat) :
  Forall is_byte buffer ->
  begin + len <= length buffer ->
  crc16xmodem buffer begin len None = xmodem_crc16 (take len (drop begin buffer))
  /\ (0 <= crc16xmodem buffer begin len None < 2 ^ 16)%Z
  /\ crc16xmodem buffer begin 0 None = 0%Z
  /\ crc16xmodem check_string 0 9 None = 0x31C3%Z.
Proof.
  intros Hb Hl. split; [|split; [|split]].
  - unfold crc16xmodem, xmodem_crc16.
    replace (begin + len - begin) with len by lia.
    apply crc_loop_xmodem; [assumption | lia | lia].
  - apply crc16xmodem_range.
  - unfold crc16xmodem. replace (begin + 0 - begin) with 0 by lia. reflexivity.
  - vm_compute. reflexivity.
Qed.

Lemma crc16xmodem_correct_witness :
  crc16xmodem check_string 0 9 None = xmodem_crc16 (take 9 (drop 0 check_string))
  /\ (0 <= crc16xmodem check_string 0 9 None < 2 ^ 16)%Z
  /\ crc16xmodem check_string 0 0 None = 0%Z
  /\ crc16xmodem check_string 0 9 None = 0x31C3%Z.
Proof.
  apply (crc16xmodem_correct check_string 0 9).
  - unfold check_string, is_byte. repeat constructor; lia.
  - simpl. lia.
Defined.

(** C2.  For a buffer of bytes, the packet of index [i] (the [i+1]-th
    packet) of [splitFile] has a payload region of 1024 or 128 bytes; its
    marker is STX exactly when the region has 1024 bytes and SOH exactly
    when it has 128; its sequence byte is [(i+1) mod 256] and its
    complement byte 0xFF minus that; the payload is the bytes of the file
    from [1024 * i] on, padded with 0x1A in the last packet when fewer
    than a frame are left; the two last bytes are the CRC16/XMODEM of the
    payload region alone, as the literature defines it, high byte
    first. *)
Theorem splitFile_packet_layout (buffer : list Z) (packets : list (list Z))
    (i : nat) (packet : list Z) :
  Forall is_byte buffer ->
  splitFile buffer = Some packets ->
  packets !! i = Some packet ->
  let payload := payload_of packet in
  let n := length payload in
  let data := take n (drop (PACKET_SIZE_1024 * i) buffer) in
  let crc := xmodem_crc16 payload in
  (n = 1024 \/ n = 128)
  /\ length packet = 3 + n + 2
  /\ (packet !! 0 = Some STX <-> n = 1024)
  /\ (packet !! 0 = Some SOH <-> n = 128)
  /\ packet !! 1 = Some (Z.of_nat (i + 1) mod 256)%Z
  /\ packet !! 2 = Some (0xff - Z.of_nat (i + 1) mod 256)%Z
  /\ (i + 1 < length packets -> payload = data)
  /\ (i + 1 = length packets ->
      payload = data ++ replicate (n - length data) 0x1A%Z)
  /\ crc16xmodem packet 3 n None = crc
  /\ (0 <= crc < 2 ^ 16)%Z
  /\ trailer_of packet = [(crc / 2 ^ 8)%Z; (crc mod 2 ^ 8)%Z].
Proof.
  intros Hb Hs Hp.
  destruct (packets_lookup _ _ _ _ Hs Hp) as (Hlen & Hi & ->).
  assert (Hx : xmodem_crc16 (payload_of (data_packet buffer i))
               = crc16xmodem (payload_of (data_packet buffer i)) 0
                   (length (payload_of (data_packet buffer i))) None).
  { symmetry. apply crc16xmodem_whole.
    unfold data_packet. cbv zeta. rewrite payload_of_framed.
    apply is_byte_chunk_payload; [exact Hb|].
    destruct (is_last_of (length buffer) i); unfold is_byte; lia. }
  cbv zeta. rewrite Hx. clear Hx.
  unfold data_packet. cbv zeta.
  rewrite payload_of_framed, length_chunk_payload, length_framed,
    length_chunk_payload, trailer_of_framed, length_chunk_payload.
  set (L := length buffer) in *.
  set (p := packSize_of L i).
  set (fill := if is_last_of L i then 26%Z else 0%Z).
  set (payload := chunk_payload buffer p fill (PACKET_SIZE_1024 * i)).
  assert (Hcases : p = 128 /\ (p =? PACKET_SIZE_1024) = false
                   \/ p = 1024 /\ (p =? PACKET_SIZE_1024) = true).
  { destruct (packSize_cases L i) as [E|E]; fold p in E; rewrite E;
      [left|right]; split; reflexivity. }
  split; [lia|]. split; [reflexivity|].
  split; [|split].
  - unfold framed. cbv zeta. change (([?a; ?b; ?c] ++ ?l) !! 0) with (Some a).
    destruct Hcases as [[-> ->]|[-> ->]]; unfold STX, SOH; split; intros H;
      try reflexivity; try lia; congruence.
  - unfold framed. cbv zeta. change (([?a; ?b; ?c] ++ ?l) !! 0) with (Some a).
    destruct Hcases as [[-> ->]|[-> ->]]; unfold STX, SOH; split; intros H;
      try reflexivity; try lia; congruence.
  - split; [reflexivity|]. split; [reflexivity|].
    split; [|split; [|split; [|split]]].
    + intros Hin. rewrite Hlen in Hin.
      destruct (packSize_inner L i Hin) as (_ & E & Hle). fold p in E.
      unfold payload, chunk_payload. cbv zeta.
      rewrite length_take, length_drop.
      replace (p - Nat.min p (length buffer - PACKET_SIZE_1024 * i)) with 0
        by (unfold L in *; lia).
      apply app_nil_r.
    + intros Hlast. rewrite Hlen in Hlast.
      destruct (packSize_last L i Hlast) as (E & _).
      unfold payload, fill. rewrite E. reflexivity.
    + rewrite <- (length_chunk_payload buffer p fill (PACKET_SIZE_1024 * i)).
      apply crc_of_framed.
    + rewrite <- (length_chunk_payload buffer p fill (PACKET_SIZE_1024 * i)).
      apply crc16xmodem_range.
    + rewrite <- (length_chunk_payload buffer p fill (PACKET_SIZE_1024 * i)).
      reflexivity.
Qed.

Lemma splitFile_packet_layout_witness :
  let packet := default [] (three_bytes_packets !! 0) in
  let payload := payload_of packet in
  let n := length payload in
  let data := take n (drop (PACKET_SIZE_1024 * 0) three_bytes) in
  let crc := xmodem_crc16 payload in
  (n = 1024 \/ n = 128)
  /\ length packet = 3 + n + 2
  /\ (packet !! 0 = Some STX <-> n = 1024)
  /\ (packet !! 0 = Some SOH <-> n = 128)
  /\ packet !! 1 = Some (Z.of_nat (0 + 1) mod 256)%Z
  /\ packet !! 2 = Some (0xff - Z.of_nat (0 + 1) mod 256)%Z
  /\ (0 + 1 < length three_bytes_packets -> payload = data)
  /\ (0 + 1 = length three_bytes_packets ->
      payload = data ++ replicate (n - length data) 0x1A%Z)
  /\ crc16xmodem packet 3 n None = crc
  /\ (0 <= crc < 2 ^ 16)%Z
  /\ trailer_of packet = [(crc / 2 ^ 8)%Z; (crc mod 2 ^ 8)%Z].
Proof.
  apply (splitFile_packet_layout three_bytes three_bytes_packets 0).
  - unfold three_bytes, is_byte. repeat constructor; lia.
  - vm_compute. reflexivity.
  - vm_compute. reflexivity.
Defined.

(** C3, as stated, fails: the payload region of the last packet of a
    file of 200 bytes has 1024 bytes, not [200 mod 1024]. *)
Lemma splitFile_last_payload_is_padded :
  exists packets packet,
    splitFile two_hundred_bytes = Some packets
    /\ last packets = Some packet
    /\ 128 < length two_hundred_bytes mod 1024
    /\ length (payload_of packet) = 1024
    /\ length (payload_of packet) <> length two_hundred_bytes mod 1024.
Proof.
  exists (default [] (splitFile two_hundred_bytes)).
  exists (default [] (last (default [] (splitFile two_hundred_bytes)))).
  vm_compute. repeat split; try reflexivity; try lia; discriminate.
Qed.

(** C3, amended.  A buffer of [L > 0] bytes gives [ceil (L / 1024)]
    packets.  Every packet before the last has a payload region of 1024
    bytes of the file.  With [r = L mod 1024], the payload region of the
    last packet has 1024 bytes when [r = 0]; it is a frame of 128 bytes
    when [0 < r <= 128]; and when [128 < r] it has 1024 bytes, the [r]
    bytes left of the file followed by [1024 - r] bytes 0x1A. *)
Theorem splitFile_count_and_sizes (buffer : list Z) :
  0 < length buffer ->
  exists packets,
    splitFile buffer = Some packets
    /\ length packets = (length buffer + 1023) / 1024
    /\ 1024 * (length packets - 1) < length buffer <= 1024 * length packets
    /\ forall i packet, packets !! i = Some packet ->
       let r := length buffer mod 1024 in
       let rest := drop (1024 * i) buffer in
       (i + 1 < length packets ->
          length (payload_of packet) = 1024
          /\ payload_of packet = take 1024 rest)
       /\ (i + 1 = length packets ->
            (r = 0 ->
               length (payload_of packet) = 1024 /\ payload_of packet = rest)
            /\ (0 < r <= 128 ->
               length (payload_of packet) = 128
               /\ payload_of packet = rest ++ replicate (128 - r) 0x1A%Z)
            /\ (128 < r ->
               length (payload_of packet) = 1024
               /\ length rest = r
               /\ payload_of packet = rest ++ replicate (1024 - r) 0x1A%Z)).
Proof.
  intros HL. eexists. split; [apply splitFile_eq|].
  rewrite length_map, length_seq.
  split; [unfold maxPack_of, PACKET_SIZE_1024; f_equal; lia|].
  split; [apply maxPack_ceil, HL|].
  intros i packet Hp r rest.
  destruct (packets_lookup buffer _ i packet (splitFile_eq buffer) Hp)
    as (_ & Hi & ->).
  split.
  - intros Hin. destruct (payload_inner buffer i Hin) as [E1 E2].
    split; [exact E2 | exact E1].
  - intros Hlast.
    destruct (payload_last buffer i Hlast) as (E & El & Hr & Hk & Hc & Hcs).
    cbv zeta in E, El, Hc, Hcs, Hr.
    assert (Hl : length rest = length buffer - 1024 * i)
      by (unfold rest; apply length_drop).
    pose proof (proj1 (maxPack_lt (length buffer) i) Hi) as B1.
    pose proof (maxPack_lt (length buffer) (i + 1)) as B2.
    pose proof (Nat.div_mod_eq (length buffer) 1024) as D.
    pose proof (Nat.mod_upper_bound (length buffer) 1024 ltac:(lia)) as DB.
    fold r in D, DB.
    unfold PACKET_SIZE_1024, PACKET_SIZE_128 in *.
    fold rest in E, Hr, Hk, Hc.
    set (p := packSize_of (length buffer) i) in *.
    assert (Hrest : length rest = if r =? 0 then 1024 else r).
    { destruct (Nat.eqb_spec r 0); nia. }
    rewrite El, E. clear E El.
    split; [|split]; intros Hcase.
    + rewrite Hcase in Hrest. cbn [Nat.eqb] in Hrest.
      assert (Hp1 : p = 1024) by lia.
      replace (p - length rest) with 0 by lia.
      split; [assumption | apply app_nil_r].
    + destruct (Nat.eqb_spec r 0); [lia|].
      assert (p = 128) by lia.
      split; [assumption|]. rewrite Hrest. congruence.
    + destruct (Nat.eqb_spec r 0); [lia|].
      assert (p = 1024) by lia.
      split; [assumption|]. split; [assumption|]. rewrite Hrest. congruence.
Qed.

Lemma splitFile_count_and_sizes_witness :
  exists packets,
    splitFile two_hundred_bytes = Some packets
    /\ length packets = (length two_hundred_bytes + 1023) / 1024
    /\ 1024 * (length packets - 1) < length two_hundred_bytes
       <= 1024 * length packets
    /\ forall i packet, packets !! i = Some packet ->
       let r := length two_hundred_bytes mod 1024 in
       let rest := drop (1024 * i) two_hundred_bytes in
       (i + 1 < length packets ->
          length (payload_of packet) = 1024
          /\ payload_of packet = take 1024 rest)
       /\ (i + 1 = length packets ->
            (r = 0 ->
               length (payload_of packet) = 1024 /\ payload_of packet = rest)
            /\ (0 < r <= 128 ->
               length (payload_of packet) = 128
               /\ payload_of packet = rest ++ replicate (128 - r) 0x1A%Z)
            /\ (128 < r ->
               length (payload_of packet) = 1024
               /\ length rest = r
               /\ payload_of packet = rest ++ replicate (1024 - r) 0x1A%Z)).
Proof.
  apply (splitFile_count_and_sizes two_hundred_bytes).
  vm_compute. lia.
Defined.

(** C4.  The payload regions of the packets of [splitFile], put end to
    end and cut to the length of the buffer, are the buffer. *)
Theorem splitFile_roundtrip (buffer : list Z) (packets : list (list Z)) :
  splitFile buffer = Some packets ->
  take (length buffer) (concat (map payload_of packets)) = buffer.
Proof.
  rewrite splitFile_eq. intros [= <-].
  rewrite map_map.
  destruct (maxPack_of (length buffer)) as [|k] eqn:En.
  - apply (proj1 (maxPack_0 _)) in En. apply nil_length_inv in En. now subst.
  - rewrite seq_S, map_app, concat_app, concat_inner by lia.
    cbn [map concat Nat.add]. rewrite app_nil_r.
    destruct (payload_last buffer k ltac:(lia)) as (-> & _).
    rewrite app_assoc, take_drop. apply take_app_length.
Qed.

Lemma splitFile_roundtrip_witness :
  take (length three_bytes) (concat (map payload_of three_bytes_packets))
  = three_bytes.
Proof.
  apply (splitFile_roundtrip three_bytes three_bytes_packets).
  vm_compute. reflexivity.
Defined.

(** C5, as stated, fails, on three kinds of filename.  For a filename
    of 127 letters and a size of 5 the payload is the filename and a NUL:
    the size text falls outside the 128 bytes.  For the name "é.bin" the
    code stores six bytes of UTF-8 and then advances its offset by
    [filename.length], five, so the size text lands on the place of the
    NUL: the payload holds no NUL between name and size.  For a name with a
    NUL character in it the payload is as claimed, and read back it gives
    the name up to that character.  In none of the three does reading the
    payload back give the filename and the size. *)
Lemma makeFileHeader_names_that_fail :
  (exists packet,
     makeFileHeader long_name 5 = Some packet
     /\ payload_of packet = long_name ++ [0%Z]
     /\ payload_of packet <> header_layout long_name 5
     /\ parse_header (payload_of packet) <> Some (long_name, 5))
  /\ (exists packet,
       makeFileHeader e_acute_bin 5 = Some packet
       /\ take 9 (payload_of packet)
          = [0xC3; 0xA9; 0x2E; 0x62; 0x69; 0x6E; 0x35; 0x20; 0x00]%Z
       /\ payload_of packet
          <> header_layout (concat (utf8_groups e_acute_bin)) 5
       /\ parse_header (payload_of packet)
          <> Some (concat (utf8_groups e_acute_bin), 5))
  /\ (exists packet,
       makeFileHeader nul_name 5 = Some packet
       /\ payload_of packet = header_layout nul_name 5
       /\ parse_header (payload_of packet) <> Some (nul_name, 5)).
Proof.
  split; [|split].
  - exists (default [] (makeFileHeader long_name 5)).
    split; [vm_compute; reflexivity|].
    split; [vm_compute; reflexivity|].
    split.
    + intros H. apply (f_equal length) in H. vm_compute in H. discriminate.
    + vm_compute. discriminate.
  - exists (default [] (makeFileHeader e_acute_bin 5)).
    split; [vm_compute; reflexivity|].
    split; [vm_compute; reflexivity|].
    split.
    + intros H. apply (f_equal (take 9)) in H. vm_compute in H. discriminate.
    + vm_compute. discriminate.
  - exists (default [] (makeFileHeader nul_name 5)).
    split; [vm_compute; reflexivity|].
    split; [vm_compute; reflexivity|].
    vm_compute. discriminate.
Qed.

(** C5, amended.  For a non-empty filename of ASCII characters and a
    positive size below 10^21 (where [toString] gives plain decimal
    digits), such that filename, NUL, decimal size and space fit in 128
    bytes, [makeFileHeader] returns a packet with marker SOH, sequence
    byte 0, complement 0xFF, the payload of 128 bytes [filename, NUL,
    decimal size, space, zeros] and the CRC16/XMODEM of that payload, as
    the literature defines it, high byte first; when the filename holds
    no NUL character, reading the payload back gives the filename and the
    size.  Names outside ASCII are left out. *)
Theorem makeFileHeader_layout (name : list Z) (filesize : nat) :
  name <> [] -> ascii_text name ->
  0 < filesize -> (Z.of_nat filesize < 10 ^ 21)%Z ->
  length name + 1 + length (toString filesize) + 1 <= 128 ->
  exists packet,
    makeFileHeader name filesize = Some packet
    /\ packet !! 0 = Some SOH
    /\ packet !! 1 = Some 0%Z
    /\ packet !! 2 = Some 0xff%Z
    /\ length (payload_of packet) = 128
    /\ payload_of packet
       = name ++ [0x00%Z] ++ toString filesize ++ [0x20%Z]
         ++ replicate (128 - (length name + 1 + length (toString filesize) + 1))
              0x00%Z
    /\ (let crc := xmodem_crc16 (payload_of packet) in
        crc16xmodem packet 3 128 None = crc
        /\ trailer_of packet = [(crc / 2 ^ 8)%Z; (crc mod 2 ^ 8)%Z])
    /\ (ascii_name name ->
        parse_header (payload_of packet) = Some (name, filesize)).
Proof.
  intros Hne Ha Hpos _ Hfit.
  exists (framed SOH 0 (header_layout name filesize)).
  destruct (header_layout_fits name filesize Hfit) as [El Ell].
  split; [apply makeFileHeader_eq; (assumption || lia)|].
  rewrite payload_of_framed, trailer_of_framed, Ell.
  do 3 (split; [reflexivity|]).
  split; [reflexivity|].
  assert (Hx : xmodem_crc16 (header_layout name filesize)
               = crc16xmodem (header_layout name filesize) 0 128 None).
  { rewrite <- Ell. symmetry. apply crc16xmodem_whole.
    unfold header_layout. cbv zeta.
    repeat (apply Forall_app; split).
    - apply is_byte_ascii_text, Ha.
    - repeat constructor; unfold is_byte; lia.
    - apply is_byte_ascii_text, ascii_text_toString.
    - repeat constructor; unfold is_byte; lia.
    - apply Forall_replicate. unfold is_byte; lia. }
  split; [|split].
  - rewrite El, length_app. cbn [length].
    rewrite <- !app_assoc.
    replace (128 - (length name + 1 + (length (toString filesize) + 1)))
      with (128 - (length name + 1 + length (toString filesize) + 1)) by lia.
    reflexivity.
  - cbv zeta. rewrite Hx. split; [|reflexivity].
    rewrite <- Ell. apply crc_of_framed.
  - intros Hn. rewrite El, <- !app_assoc. apply parse_header_layout, Hn.
Qed.

Lemma makeFileHeader_layout_witness :
  exists packet,
    makeFileHeader (ascii_units "a.bin") 1500 = Some packet
    /\ packet !! 0 = Some SOH
    /\ packet !! 1 = Some 0%Z
    /\ packet !! 2 = Some 0xff%Z
    /\ length (payload_of packet) = 128
    /\ payload_of packet
       = ascii_units "a.bin" ++ [0x00%Z] ++ toString 1500 ++ [0x20%Z]
         ++ replicate
              (128 - (length (ascii_units "a.bin") + 1
                      + length (toString 1500) + 1))
              0x00%Z
    /\ (let crc := xmodem_crc16 (payload_of packet) in
        crc16xmodem packet 3 128 None = crc
        /\ trailer_of packet = [(crc / 2 ^ 8)%Z; (crc mod 2 ^ 8)%Z])
    /\ (ascii_name (ascii_units "a.bin") ->
        parse_header (payload_of packet) = Some (ascii_units "a.bin", 1500)).
Proof.
  apply (makeFileHeader_layout (ascii_units "a.bin") 1500).
  - discriminate.
  - unfold ascii_text. vm_compute. repeat constructor; discriminate.
  - lia.
  - reflexivity.
  - vm_compute. lia.
Defined.

(** A whole transfer of the three bytes, with a receiver that
    acknowledges everything: header, data packet, EOT, the filler frame
    twice, and the outcome with all the bytes written. *)
Example complete_transfer :
  let st := run three_bytes_env
              [[CRC16]; [ACK; CRC16]; [ACK]; [ACK; CRC16]; [ACK]] ReadDone in
  writes st
  = file_trunks three_bytes_env ++ [[EOT]; eot_pack; eot_pack]
  /\ resolved st = [mkOutcome (ascii_units "a") 3 3]
  /\ seq st = 2 /\ finished st = true.
Proof. vm_compute. repeat split; reflexivity. Qed.

(** C6, as stated, fails, in two ways.  The header built for an empty
    file holds the filename and zeros: no "0" and no space are written.
    And a buffer of 0 bytes need not give an empty file: [transfer] sends
    the whole ArrayBuffer under its argument, so an array of 0 bytes over
    an ArrayBuffer of three gives a data packet; an argument that is an
    ArrayBuffer makes [Buffer.from] throw.  As for the end of the
    transfer, the ACK of the header writes nothing by itself: the
    closing packet, whose first byte is SOH, is the answer to the next
    'C'. *)
Lemma zero_byte_input_fails :
  (exists env header,
     transfer_env (ascii_units "a") (TypedArray [] 0 0) false false = Some env
     /\ file_trunks env = [header]
     /\ payload_of header = ascii_units "a" ++ replicate 127 0%Z
     /\ payload_of header <> header_layout (ascii_units "a") 0)
  /\ (exists env,
       BufferArg_bytes (TypedArray three_bytes 0 0) = []
       /\ transfer_env (ascii_units "a") (TypedArray three_bytes 0 0)
            false false = Some env
       /\ length (file_trunks env) = 2
       /\ totalBytes env = 3)
  /\ (BufferArg_bytes (ArrayBuffer []) = []
      /\ transfer_env (ascii_units "a") (ArrayBuffer []) false false = None)
  /\ (let env :=
        default no_env
          (transfer_env (ascii_units "a") (TypedArray [] 0 0) false false) in
      writes (handle_chunk env initial [CRC16; ACK]) = file_trunks env
      /\ writes (handle_chunk env initial [CRC16; ACK; CRC16])
         = file_trunks env ++ [eot_pack]
      /\ eot_pack !! 0 = Some SOH).
Proof.
  split; [|split; [|split]]; [| | |vm_compute; repeat split; reflexivity].
  - exists (default no_env
              (transfer_env (ascii_units "a") (TypedArray [] 0 0) false false)).
    exists (default [] (makeFileHeader (ascii_units "a") 0)).
    split; [vm_compute; reflexivity|].
    split; [vm_compute; reflexivity|].
    split; [vm_compute; reflexivity|].
    vm_compute. discriminate.
  - exists three_bytes_env.
    split; [reflexivity|].
    split; [vm_compute; reflexivity|].
    split; reflexivity.
  - split; reflexivity.
Qed.

(** C6, amended.  For an argument whose ArrayBuffer has 0 bytes, the
    header payload is the bytes of the filename and zero padding, without
    any size text (for an ASCII filename of at most 127 characters: the
    filename, a NUL and zeros); there is no data packet and the queue
    holds the header alone.  The end of the transfer follows at once
    after the ACK of the header: the cursor is then at the end of the
    queue, and whatever byte comes next the driver writes no packet of
    the queue, but the closing packet on 'C' or ACK and the byte EOT on
    NAK. *)
Theorem empty_file_transfer (name : list Z) (arg : BufferArg)
    (locked callback : bool) :
  BufferArg_buffer arg = Some [] ->
  exists header,
    transfer_env name arg locked callback
    = Some (mkEnv name [header] 0 locked callback)
    /\ splitFile [] = Some []
    /\ header !! 0 = Some SOH /\ header !! 1 = Some 0%Z
    /\ header !! 2 = Some 0xff%Z
    /\ (let bytes := fitting (utf8_groups name) 130 in
        payload_of header
        = take 128 bytes ++ replicate (128 - length bytes) 0x00%Z)
    /\ (ascii_text name -> length name <= 127 ->
        payload_of header
        = name ++ [0x00%Z] ++ replicate (127 - length name) 0x00%Z)
    /\ (let env := mkEnv name [header] 0 locked callback in
        let st1 := handle_byte env initial CRC16 in
        let st2 := handle_byte env st1 ACK in
        writes st1 = [header]
        /\ writes st2 = [header]
        /\ seq st2 = 1 /\ seq st2 = length (file_trunks env)
        /\ forall ch,
             writes (handle_byte env st2 ch)
             = [header]
               ++ (if (ch =? CRC16)%Z then [eot_pack]
                   else if (ch =? ACK)%Z then [eot_pack]
                   else if (ch =? NAK)%Z then [[EOT]]
                   else [])).
Proof.
  intros Harg.
  set (bytes := fitting (utf8_groups name) 130).
  exists (framed SOH 0 (take 128 bytes ++ replicate (128 - length bytes) 0%Z)).
  assert (Hs : splitFile [] = Some []) by (vm_compute; reflexivity).
  split.
  { unfold transfer_env, Buffer_from. rewrite Harg, option_bind_Some.
    unfold transfer_queue. cbv zeta.
    change (length (@nil Z)) with 0.
    rewrite (makeFileHeader_zero_any name), Hs. reflexivity. }
  split; [exact Hs|].
  do 3 (split; [reflexivity|]).
  split; [apply payload_of_framed|].
  split.
  { intros Ha Hl. rewrite payload_of_framed. unfold bytes.
    rewrite utf8_groups_ascii, fitting_singletons by (assumption || lia).
    rewrite take_ge by lia.
    replace (128 - length name) with (S (127 - length name)) by lia.
    reflexivity. }
  generalize (framed SOH 0
                (take 128 bytes ++ replicate (128 - length bytes) 0%Z)).
  intros header. cbv zeta. set (E := eot_pack).
  set (env := mkEnv name [header] 0 locked callback).
  assert (E1 : handle_byte env initial CRC16
               = mkState 0 true true false 0 CRC16 [header] [] [] 0 0)
    by (vm_compute; reflexivity).
  assert (E2 : handle_byte env
                 (mkState 0 true true false 0 CRC16 [header] [] [] 0 0) ACK
               = mkState 1 true true false 0 ACK [header] [] [] 0 0)
    by (vm_compute; reflexivity).
  rewrite E1, E2.
  do 4 (split; [reflexivity|]).
  intros ch. unfold handle_byte. cbn [finished negb].
  destruct (Z.eqb_spec ch CRC16) as [->|H1]; [reflexivity|].
  destruct (Z.eqb_spec ch ACK) as [->|H2]; [reflexivity|].
  destruct (Z.eqb_spec ch NAK) as [->|H3]; [reflexivity|].
  destruct (Z.eqb_spec ch CA) as [->|H4]; [|reflexivity].
  unfold close. cbn. destruct locked; reflexivity.
Qed.

Lemma empty_file_transfer_witness :
  exists header,
    transfer_env (ascii_units "a") (TypedArray [] 0 0) false false
    = Some (mkEnv (ascii_units "a") [header] 0 false false)
    /\ splitFile [] = Some []
    /\ header !! 0 = Some SOH /\ header !! 1 = Some 0%Z
    /\ header !! 2 = Some 0xff%Z
    /\ (let bytes := fitting (utf8_groups (ascii_units "a")) 130 in
        payload_of header
        = take 128 bytes ++ replicate (128 - length bytes) 0x00%Z)
    /\ (ascii_text (ascii_units "a") -> length (ascii_units "a") <= 127 ->
        payload_of header
        = ascii_units "a" ++ [0x00%Z]
          ++ replicate (127 - length (ascii_units "a")) 0x00%Z)
    /\ (let env := mkEnv (ascii_units "a") [header] 0 false false in
        let st1 := handle_byte env initial CRC16 in
        let st2 := handle_byte env st1 ACK in
        writes st1 = [header]
        /\ writes st2 = [header]
        /\ seq st2 = 1 /\ seq st2 = length (file_trunks env)
        /\ forall ch,
             writes (handle_byte env st2 ch)
             = [header]
               ++ (if (ch =? CRC16)%Z then [eot_pack]
                   else if (ch =? ACK)%Z then [eot_pack]
                   else if (ch =? NAK)%Z then [[EOT]]
                   else [])).
Proof.
  apply (empty_file_transfer (ascii_units "a") (TypedArray [] 0 0) false false).
  reflexivity.
Defined.

(** C7, as stated, fails: after the ACK of the first of two data
    packets the written-byte total is 2048, the cursor [seq = 1] at the
    moment of the ACK giving [min (1 * 1024) 2048 = 1024]. *)
Lemma ack_counts_the_next_packet :
  exists env st,
    transfer_env (ascii_units "a") (TypedArray two_packets 0 2048)
      false false = Some env
    /\ st = handle_chunk env initial [CRC16; ACK; CRC16]
    /\ finished st = false /\ session st = true /\ sending st = true
    /\ seq st = 1 /\ length (file_trunks env) = 3
    /\ writtenBytes (handle_byte env st ACK) = 2048
    /\ Nat.min (seq st * 1024) (totalBytes env) = 1024.
Proof.
  exists two_packets_env.
  exists (handle_chunk two_packets_env initial [CRC16; ACK; CRC16]).
  split; [vm_compute; reflexivity|].
  split; [reflexivity|].
  repeat split; vm_compute; reflexivity.
Qed.

(** C7, amended.  When an ACK arrives while the session is active,
    transmission is armed and the cursor [seq] satisfies
    [0 < seq < queue length], the written-byte total becomes
    [min ((seq + 1) * 1024) totalBytes], [seq] being the cursor before the
    advance; the cursor advances by one and the packet at the new cursor
    is written, or the single byte EOT when the new cursor is the queue
    length; the total never exceeds [totalBytes]. *)
Theorem ack_advances_cursor (env : Env) (bytes : list Z) :
  let st := handle_chunk env initial bytes in
  finished st = false -> session st = true -> sending st = true ->
  0 < seq st < length (file_trunks env) ->
  let st' := handle_byte env st ACK in
  writtenBytes st' = Nat.min ((seq st + 1) * 1024) (totalBytes env)
  /\ seq st' = seq st + 1
  /\ writes st' = writes st ++ [default [EOT] (file_trunks env !! (seq st + 1))]
  /\ writtenBytes st <= totalBytes env
  /\ writtenBytes st' <= totalBytes env.
Proof.
  intros st Hf Hs Hd Hq st'.
  pose proof (written_inv_handle_chunk env bytes initial
                (written_inv_initial env)) as Hw.
  fold st in Hw.
  destruct (ack_data_packet env st Hw Hf Hs Hd Hq) as (E1 & E2 & E3 & _).
  fold st' in E1, E2, E3.
  split; [exact E1|]. split; [exact E2|]. split; [exact E3|].
  unfold written_inv, PACKET_SIZE_1024 in Hw. lia.
Qed.

Lemma ack_advances_cursor_witness :
  let st := handle_chunk three_bytes_env initial [CRC16; ACK; CRC16] in
  let st' := handle_byte three_bytes_env st ACK in
  writtenBytes st' = Nat.min ((seq st + 1) * 1024) (totalBytes three_bytes_env)
  /\ seq st' = seq st + 1
  /\ writes st'
     = writes st ++ [default [EOT] (file_trunks three_bytes_env !! (seq st + 1))]
  /\ writtenBytes st <= totalBytes three_bytes_env
  /\ writtenBytes st' <= totalBytes three_bytes_env.
Proof.
  apply (ack_advances_cursor three_bytes_env [CRC16; ACK; CRC16]).
  - vm_compute. reflexivity.
  - vm_compute. reflexivity.
  - vm_compute. reflexivity.
  - vm_compute. lia.
Defined.

(** C8, as stated, fails: the first byte of [eot_pack] is SOH (0x01),
    not the control byte EOT (0x04). *)
Lemma eot_pack_starts_with_SOH :
  length eot_pack = 133
  /\ eot_pack !! 0 = Some SOH
  /\ eot_pack !! 0 <> Some EOT.
Proof.
  split; [reflexivity|]. split; [reflexivity|].
  vm_compute. discriminate.
Qed.

(** C8, amended.  [eot_pack] is a frame of 133 bytes whose first byte is
    SOH: the block [SOH, 0x00, 0xFF], 128 zero bytes and the trailer
    [0x00, 0x00], which is the CRC16 of the zero payload.  It is written
    when a 'C' arrives with the cursor at or past the queue length, and
    when an ACK arrives there while the session is active and armed, which
    also clears both flags. *)
Theorem eot_pack_frame (env : Env) (st : State) :
  finished st = false ->
  length (file_trunks env) <= seq st ->
  length eot_pack = 133
  /\ eot_pack !! 0 = Some SOH
  /\ eot_pack = [SOH; 0x00; 0xff]%Z ++ replicate 128 0x00%Z ++ [0x00; 0x00]%Z
  /\ crc16xmodem eot_pack 3 128 None = 0%Z
  /\ writes (handle_byte env st CRC16) = writes st ++ [eot_pack]
  /\ (session st = true -> sending st = true -> 0 < seq st ->
      let st' := handle_byte env st ACK in
      writes st' = writes st ++ [eot_pack]
      /\ sending st' = false /\ session st' = false /\ seq st' = seq st).
Proof.
  intros Hf Hq.
  split; [reflexivity|]. split; [reflexivity|].
  split; [vm_compute; reflexivity|].
  split; [vm_compute; reflexivity|].
  destruct st as [sq ss sd fin wb pc ws pg rs rj cn].
  simpl in Hf, Hq. subst fin.
  apply Nat.leb_le in Hq.
  cbv zeta. unfold handle_byte, sendBuffer.
  generalize eot_pack. intros E.
  split.
  - simpl. rewrite Hq. reflexivity.
  - simpl. intros -> -> Hpos. simpl.
    destruct (Nat.eqb_spec sq 0); [lia|].
    destruct (Nat.ltb_spec sq (length (file_trunks env)));
      [apply Nat.leb_le in Hq; lia|].
    simpl. repeat split; reflexivity.
Qed.

Lemma eot_pack_frame_witness :
  length eot_pack = 133
  /\ eot_pack !! 0 = Some SOH
  /\ eot_pack = [SOH; 0x00; 0xff]%Z ++ replicate 128 0x00%Z ++ [0x00; 0x00]%Z
  /\ crc16xmodem eot_pack 3 128 None = 0%Z
  /\ writes (handle_byte three_bytes_env all_sent_state CRC16)
     = writes all_sent_state ++ [eot_pack]
  /\ (session all_sent_state = true -> sending all_sent_state = true ->
      0 < seq all_sent_state ->
      let st' := handle_byte three_bytes_env all_sent_state ACK in
      writes st' = writes all_sent_state ++ [eot_pack]
      /\ sending st' = false /\ session st' = false
      /\ seq st' = seq all_sent_state).
Proof.
  apply (eot_pack_frame three_bytes_env all_sent_state).
  - vm_compute. reflexivity.
  - vm_compute. lia.
Defined.

(** C9.  The claim fails on the end of the inbound stream, which the
    code leaves out: when [reader.read()] reports done after the header
    of the file of three bytes was acknowledged, the loop only ends;
    neither [resolve] nor [reject] is called and the promise of
    [transfer] is never settled.  On the same bytes the two other ends
    settle it: a CA byte produces the outcome, a read error rejects. *)
Theorem stream_end_without_outcome :
  (exists st,
     transfer (ascii_units "a") (TypedArray three_bytes 0 3) false false
       [[CRC16; ACK]] ReadDone = Some st
     /\ resolved st = [] /\ rejected st = 0 /\ finished st = false)
  /\ (exists st,
       transfer (ascii_units "a") (TypedArray three_bytes 0 3) false false
         [[CRC16; ACK]; [CA]] ReadDone = Some st
       /\ resolved st = [mkOutcome (ascii_units "a") 3 0]
       /\ rejected st = 0)
  /\ (exists st,
       transfer (ascii_units "a") (TypedArray three_bytes 0 3) false false
         [[CRC16; ACK]] ReadThrows = Some st
       /\ resolved st = [] /\ rejected st = 1).
Proof.
  split; [|split]; eexists; (split; [vm_compute; reflexivity|]);
    repeat split; reflexivity.
Qed.

(** What the code does keep: [resolve] is called at most once, with
    [{ filePath, totalBytes, writtenBytes }], whatever bytes arrive and
    however the stream ends, and exactly once when [close] is reached: on
    a CA byte, and on an ACK received while the session is not active
    (the promise of [reader.cancel()] being taken to be fulfilled when
    the reader is locked). *)
Theorem outcome_produced_once (env : Env) (chunks : list (list Z))
    (e : StreamEnd) :
  let st := run env chunks e in
  resolved st
  = (if tears_down env initial (concat chunks)
     then [mkOutcome (filename env) (totalBytes env) (writtenBytes st)]
     else [])
  /\ length (resolved st) <= 1
  /\ (In CA (concat chunks) -> length (resolved st) = 1)
  /\ (forall pre post,
        concat chunks = pre ++ ACK :: post ->
        session (handle_chunk env initial pre) = false ->
        length (resolved st) = 1)
  /\ (concat chunks = [] -> resolved st = []).
Proof.
  intros st.
  destruct (run_resolved env chunks e) as [Hf Hr].
  fold st in Hf, Hr. rewrite Hf in Hr. unfold outcome_of in Hr.
  split; [exact Hr|].
  rewrite Hr.
  split; [destruct (tears_down _ _ _); simpl; lia|].
  split; [|split].
  - intros H. now rewrite (tears_down_CA env _ initial H).
  - intros pre post E Hs. rewrite E, tears_down_app.
    cbn [tears_down]. unfold tear_byte at 1. rewrite Hs.
    change ((ACK =? CA)%Z || (ACK =? ACK)%Z && negb false) with true.
    cbn [orb]. now rewrite orb_true_r.
  - intros ->. reflexivity.
Qed.

(** C10.  Once [finished] is set, a byte changes nothing: the state
    after the byte is the state before it, so no buffer is written and
    [seq], [session], [sending] and [writtenBytes] keep their values; the
    same holds for whatever the read loop and the pending callbacks still
    do, and [finished] stays set. *)
Theorem quiescent_after_finish (env : Env) (st : State) :
  finished st = true ->
  (forall ch, handle_byte env st ch = st)
  /\ (forall bytes, handle_chunk env st bytes = st)
  /\ (forall chunks e,
        let st' := run_callbacks env (readData env st chunks e) in
        seq st' = seq st /\ session st' = session st
        /\ sending st' = sending st /\ writtenBytes st' = writtenBytes st
        /\ writes st' = writes st /\ resolved st' = resolved st
        /\ finished st' = true).
Proof.
  intros H.
  split; [intros ch; apply handle_byte_finished, H|].
  split; [intros bytes; apply handle_chunk_finished, H|].
  intros chunks e st'.
  pose proof (core_readData env chunks e st H) as Hc.
  assert (Hf : finished (readData env st chunks e) = true).
  { assert (E := f_equal (fun c => snd (fst (fst (fst (fst (fst c)))))) Hc).
    simpl in E. congruence. }
  pose proof (core_iter_finish env (cancels (readData env st chunks e)) _ Hf)
    as Hi.
  rewrite Hc in Hi.
  assert (Hs : core st' = core st) by exact Hi.
  unfold core in Hs. clearbody st'.
  inversion Hs as [[H1 H2 H3 H4 H5 H6 H7 H8 H9]].
  repeat split; congruence.
Qed.

Lemma quiescent_after_finish_witness :
  (forall ch, handle_byte three_bytes_env cancelled_state ch = cancelled_state)
  /\ (forall bytes,
        handle_chunk three_bytes_env cancelled_state bytes = cancelled_state)
  /\ (forall chunks e,
        let st' :=
          run_callbacks three_bytes_env
            (readData three_bytes_env cancelled_state chunks e) in
        seq st' = seq cancelled_state /\ session st' = session cancelled_state
        /\ sending st' = sending cancelled_state
        /\ writtenBytes st' = writtenBytes cancelled_state
        /\ writes st' = writes cancelled_state
        /\ resolved st' = resolved cancelled_state
        /\ finished st' = true).
Proof.
  apply (quiescent_after_finish three_bytes_env cancelled_state).
  vm_compute. reflexivity.
Defined.


(** * Further properties *)

(** ** The checksum in segments, and what a receiver checks *)

Section CrcSegments.
Local Open Scope Z_scope.

Lemma crc_loop_app (packet : list Z) (a b : nat) :
  forall begin crc,
  crc_loop packet (a + b) begin crc
  = crc_loop packet b (begin + a) (crc_loop packet a begin crc).
Proof.
  induction a as [|a IH]; intros begin crc.
  - rewrite Nat.add_0_l, Nat.add_0_r.
    lazy beta iota delta [crc_loop]; fold crc_loop. reflexivity.
  - rewrite Nat.add_succ_l, !crc_loop_S, IH, Nat.add_succ_r. reflexivity.
Qed.

Lemma num_Some (x : Z) : JS.num (Some x) = x.
Proof. reflexivity. Qed.

Lemma plain_self_check_all : all_bits 16 plain_self_check 0 = true.
Proof. vm_cast_no_check (eq_refl true). Qed.

Lemma crc_step_self (r : Z) :
  0 <= r < 2 ^ 16 ->
  crc_step (crc_step r (Some (r / 2 ^ 8))) (Some (r mod 2 ^ 8)) = 0.
Proof.
  intros Hr.
  assert (Hd : 0 <= r / 2 ^ 8 < 2 ^ 8).
  { split; [apply Z.div_pos; lia | apply Z.div_lt_upper_bound; lia]. }
  pose proof (Z.mod_pos_bound r (2 ^ 8) ltac:(lia)) as Hm.
  rewrite (crc_step_plain r) by assumption.
  rewrite num_Some, (Z.mod_small (r / 2 ^ 8)) by lia.
  rewrite crc_step_plain by (apply crc_plain_range; lia).
  rewrite num_Some, Zmod_mod.
  pose proof (all_below 16 plain_self_check plain_self_check_all r Hr) as H.
  apply Z.eqb_eq in H. exact H.
Qed.

(** The checksum over a payload followed by its trailer is 0. *)
Lemma framed_verifies (m s : Z) (payload : list Z) :
  crc16xmodem (framed m s payload) 3 (length payload + 2) None = 0.
Proof.
  pose proof (crc_of_framed m s payload) as Hc.
  pose proof (crc16xmodem_range payload 0 (length payload)) as Hr.
  unfold crc16xmodem in *. cbv zeta in *.
  replace (3 + (length payload + 2) - 3)%nat with (length payload + 2)%nat
    by lia.
  replace (3 + length payload - 3)%nat with (length payload) in Hc by lia.
  rewrite crc_loop_app, Hc.
  set (r := crc_loop payload (0 + length payload - 0) 0 0) in *.
  assert (L1 : framed m s payload !! (3 + length payload)%nat
               = Some (r / 2 ^ 8)).
  { unfold framed. cbv zeta.
    change (([m; s; 255 - s] ++ payload ++ ?t) !! (3 + length payload)%nat)
      with ((payload ++ t) !! length payload).
    rewrite lookup_app_r by lia. rewrite Nat.sub_diag.
    unfold crc16xmodem. reflexivity. }
  assert (L2 : framed m s payload !! S (3 + length payload)%nat
               = Some (r mod 2 ^ 8)).
  { unfold framed. cbv zeta.
    change (([m; s; 255 - s] ++ payload ++ ?t) !! S (3 + length payload)%nat)
      with ((payload ++ t) !! S (length payload)).
    rewrite lookup_app_r by lia.
    replace (S (length payload) - length payload)%nat with 1%nat by lia.
    unfold crc16xmodem. reflexivity. }
  change (length payload + 2)%nat with (length payload + 2)%nat.
  replace 2%nat with (S (S 0)) by reflexivity.
  rewrite !crc_loop_S, L1, L2.
  lazy beta iota delta [crc_loop]. apply crc_step_self, Hr.
Qed.
End CrcSegments.

(** X1.  The checksum can be taken in segments: seeded with the
    checksum of the first [a] bytes of a range, [crc16xmodem] over the next
    [b] bytes gives the checksum of the [a + b] bytes; the seed 0 is the
    default. *)
Theorem crc16xmodem_segments (packet : list Z) (begin a b : nat) (p : Z) :
  (0 <= p < 2 ^ 16)%Z ->
  crc16xmodem packet begin (a + b) (Some p)
  = crc16xmodem packet (begin + a) b (Some (crc16xmodem packet begin a (Some p)))
  /\ crc16xmodem packet begin (a + b) None
     = crc16xmodem packet (begin + a) b (Some (crc16xmodem packet begin a None))
  /\ crc16xmodem packet begin a (Some 0%Z) = crc16xmodem packet begin a None.
Proof.
  intros Hp.
  assert (Hs : forall c n bg, (0 <= c < 2 ^ 16)%Z ->
            JS.ToInt32 (crc_loop packet n bg c) = crc_loop packet n bg c).
  { intros c n bg Hc. pose proof (crc_loop_range packet n bg c Hc).
    apply ToInt32_small. lia. }
  unfold crc16xmodem. cbv zeta.
  replace (begin + (a + b) - begin) with (a + b) by lia.
  replace (begin + a + b - (begin + a)) with b by lia.
  replace (begin + a - begin) with a by lia.
  rewrite (ToInt32_small p) by lia.
  rewrite !Hs by lia.
  rewrite !crc_loop_app. repeat split; reflexivity.
Qed.

Lemma crc16xmodem_segments_witness :
  crc16xmodem check_string 0 (4 + 5) (Some 0%Z)
  = crc16xmodem check_string (0 + 4) 5
      (Some (crc16xmodem check_string 0 4 (Some 0%Z)))
  /\ crc16xmodem check_string 0 (4 + 5) None
     = crc16xmodem check_string (0 + 4) 5
         (Some (crc16xmodem check_string 0 4 None))
  /\ crc16xmodem check_string 0 4 (Some 0%Z) = crc16xmodem check_string 0 4 None.
Proof.
  apply (crc16xmodem_segments check_string 0 4 5 0%Z). lia.
Defined.

(** X2.  Every packet of [splitFile] passes the check of a receiver:
    the checksum taken over its payload region and its two trailer bytes
    together is 0. *)
Theorem splitFile_packets_verify (buffer : list Z) (packets : list (list Z))
    (i : nat) (packet : list Z) :
  splitFile buffer = Some packets ->
  packets !! i = Some packet ->
  crc16xmodem packet 3 (length packet - 3) None = 0%Z.
Proof.
  intros Hs Hp.
  destruct (packets_lookup _ _ _ _ Hs Hp) as (_ & _ & ->).
  unfold data_packet. cbv zeta. rewrite length_framed.
  match goal with |- context [framed ?m ?s ?P] =>
    replace (3 + length P + 2 - 3) with (length P + 2) by lia;
    apply framed_verifies
  end.
Qed.

Lemma splitFile_packets_verify_witness :
  crc16xmodem (default [] (three_bytes_packets !! 0)) 3
    (length (default [] (three_bytes_packets !! 0)) - 3) None = 0%Z.
Proof.
  apply (splitFile_packets_verify three_bytes three_bytes_packets 0).
  - vm_compute. reflexivity.
  - vm_compute. reflexivity.
Defined.

(** ** The header and the queue, in general *)


(** X3.  [makeFileHeader] throws exactly for a non-empty filename of
    130 or more code units together with a non-zero size: the size text
    would start past the end of the 133-byte buffer.  In every other case
    it returns a packet. *)
Theorem makeFileHeader_throws_iff (name : list Z) (size : nat) :
  makeFileHeader name size = None
  <-> name <> [] /\ size <> 0 /\ 130 <= length name.
Proof.
  destruct (makeFileHeader_cases name size)
    as [(H1 & H2 & H3 & E) | (Hn & P & HP & E)]; rewrite E.
  - split; [intros _; repeat split; assumption | reflexivity].
  - split; [discriminate | intros H; contradiction].
Qed.

(** X4.  Whatever the filename and the size (a name outside ASCII, a
    name cut at the end of the buffer), a packet returned by
    [makeFileHeader] has 133 bytes, starts with SOH, 0x00, 0xFF, ends with
    the CRC16 of its 128-byte payload region, high byte first, and passes
    the check of a receiver. *)
Theorem makeFileHeader_framed (name : list Z) (size : nat) (packet : list Z) :
  makeFileHeader name size = Some packet ->
  length packet = 133
  /\ packet !! 0 = Some SOH /\ packet !! 1 = Some 0%Z
  /\ packet !! 2 = Some 0xff%Z
  /\ length (payload_of packet) = 128
  /\ (let crc := crc16xmodem (payload_of packet) 0 128 None in
      trailer_of packet = [(crc / 2 ^ 8)%Z; (crc mod 2 ^ 8)%Z])
  /\ crc16xmodem packet 3 130 None = 0%Z.
Proof.
  intros H.
  destruct (makeFileHeader_cases name size)
    as [(_ & _ & _ & E) | (_ & P & HP & E)]; rewrite E in H;
    [discriminate|].
  injection H as <-.
  rewrite length_framed, payload_of_framed, trailer_of_framed, HP.
  split; [reflexivity|]. do 3 (split; [reflexivity|]).
  split; [reflexivity|]. split; [cbv zeta; reflexivity|].
  change 130 with (128 + 2). rewrite <- HP. apply framed_verifies.
Qed.

Lemma makeFileHeader_framed_witness :
  let packet := default [] (makeFileHeader [0xE9%Z] 7) in
  length packet = 133
  /\ packet !! 0 = Some SOH /\ packet !! 1 = Some 0%Z
  /\ packet !! 2 = Some 0xff%Z
  /\ length (payload_of packet) = 128
  /\ (let crc := crc16xmodem (payload_of packet) 0 128 None in
      trailer_of packet = [(crc / 2 ^ 8)%Z; (crc mod 2 ^ 8)%Z])
  /\ crc16xmodem packet 3 130 None = 0%Z.
Proof.
  apply (makeFileHeader_framed [0xE9%Z] 7).
  vm_compute. reflexivity.
Defined.

(** X5.  [transfer] sends the ArrayBuffer under its argument, not the
    argument's own bytes.  It throws before the read loop exactly when
    the argument has no [buffer] property (an ArrayBuffer: [Buffer.from]
    gets [undefined]) or the header cannot be built (a filename of 130 or
    more code units with a non-empty ArrayBuffer).  Otherwise the queue
    is the header followed by the packets of [splitFile] for the whole
    ArrayBuffer, [1 + ceil (L / 1024)] frames of 133 or 1029 bytes, and
    [totalBytes] is [L], the length of the ArrayBuffer. *)
Theorem transfer_env_queue (name : list Z) (arg : BufferArg)
    (locked callback : bool) :
  (transfer_env name arg locked callback = None
   <-> BufferArg_buffer arg = None
       \/ exists arrayBuffer,
            BufferArg_buffer arg = Some arrayBuffer
            /\ name <> [] /\ arrayBuffer <> [] /\ 130 <= length name)
  /\ (forall env,
        transfer_env name arg locked callback = Some env ->
        exists arrayBuffer,
          BufferArg_buffer arg = Some arrayBuffer
          /\ filename env = name
          /\ totalBytes env = length arrayBuffer
          /\ length (file_trunks env) = 1 + (length arrayBuffer + 1023) / 1024
          /\ Forall (fun p => length p = 133 \/ length p = 1029)
               (file_trunks env)
          /\ exists header packets,
               file_trunks env = header :: packets
               /\ makeFileHeader name (length arrayBuffer) = Some header
               /\ splitFile arrayBuffer = Some packets).
Proof.
  destruct arg as [buffer o n | bytes].
  2:{ split.
      - split; [intros _; left; reflexivity | reflexivity].
      - intros env He. discriminate He. }
  rewrite transfer_env_typed. cbn [BufferArg_buffer].
  split.
  - unfold transfer_queue. cbv zeta. rewrite splitFile_eq.
    pose proof (makeFileHeader_None_iff name (length buffer)) as Hi.
    assert (Hb : length buffer <> 0 <-> buffer <> []).
    { destruct buffer; cbn [length]; split; intros H; try lia; congruence. }
    destruct (makeFileHeader name (length buffer)) as [header|].
    + rewrite !option_bind_Some. split; [discriminate|].
      intros [H | (ab & [= <-] & H1 & H2 & H3)]; [discriminate H|].
      assert (Some header = None) by (apply Hi; tauto). discriminate.
    + split; [|reflexivity]. intros _. right. exists buffer.
      destruct (proj1 Hi eq_refl) as (H1 & H2 & H3). tauto.
  - intros env He. exists buffer. split; [reflexivity|].
    destruct (transfer_queue_Some _ _ _ _ _ He) as (header & Hh & ->).
    cbn [filename totalBytes file_trunks].
    split; [reflexivity|]. split; [reflexivity|].
    split; [|split].
    + cbn [length]. rewrite length_map, length_seq.
      unfold maxPack_of, PACKET_SIZE_1024. do 2 f_equal. lia.
    + constructor.
      * destruct (makeFileHeader_cases name (length buffer))
          as [(_ & _ & _ & E) | (_ & P & HP & E)]; rewrite E in Hh;
          [discriminate|].
        injection Hh as <-. left. rewrite length_framed, HP. reflexivity.
      * apply Forall_forall. intros p Hp.
        apply list_elem_of_In, in_map_iff in Hp as (i & <- & _).
        apply length_data_packet.
    + exists header. eexists. split; [reflexivity|].
      split; [exact Hh | apply splitFile_eq].
Qed.

(** ** [splitBuffer] and the chunked [sendBuffer] *)

Section SplitBufferFacts.

Lemma chunk_count_lt (L size i : nat) :
  0 < size -> (i < chunk_count L size <-> size * i < L).
Proof.
  intros Hs. unfold chunk_count. split; intros H.
  - destruct (Nat.le_gt_cases L (size * i)) as [Hle|]; [|assumption].
    assert (Hq : (L + size - 1) / size < i + 1)
      by (apply Nat.Div0.div_lt_upper_bound; nia).
    lia.
  - assert (Hq : i + 1 <= (L + size - 1) / size)
      by (apply Nat.div_le_lower_bound; nia).
    lia.
Qed.

(** The count is the quotient, plus one when there is a remainder. *)
Lemma chunk_count_div (L size : nat) :
  0 < size ->
  chunk_count L size = L / size + (if L mod size =? 0 then 0 else 1).
Proof.
  intros Hs.
  pose proof (Nat.div_mod_eq L size) as D.
  pose proof (Nat.mod_upper_bound L size ltac:(lia)) as B.
  pose proof (chunk_count_lt L size (chunk_count L size) Hs) as H1.
  pose proof (chunk_count_lt L size (chunk_count L size - 1) Hs) as H2.
  assert (H0 : chunk_count L size = 0 -> L = 0).
  { intros E. pose proof (chunk_count_lt L size 0 Hs) as H3.
    rewrite Nat.mul_0_r in H3. lia. }
  destruct (Nat.eqb_spec (L mod size) 0); nia.
Qed.

Lemma copy_whole (source : list Z) (p start : nat) (f : Z) :
  start + p <= length source ->
  Buffer_copy source (replicate p f) 0 start (start + p)
  = Some (take p (drop start source)).
Proof.
  intros Hl. unfold Buffer_copy. rewrite length_replicate.
  destruct p as [|p].
  - rewrite Nat.add_0_r.
    destruct (Nat.leb_spec 0 0); [|lia].
    destruct (Nat.ltb_spec start start); [lia|]. rewrite andb_false_r.
    rewrite Nat.eqb_refl. reflexivity.
  - destruct (Nat.leb_spec (S p) 0); [lia|].
    destruct (Nat.ltb_spec (start + S p) start); [lia|].
    rewrite andb_false_r.
    destruct (Nat.eqb_spec (start + S p) start); [lia|].
    destruct (Nat.eqb_spec (S p) 0); [lia|].
    destruct (Nat.eqb_spec (length source) 0); [lia|]. cbn [orb].
    destruct (Nat.leb_spec (length source) start); [lia|].
    destruct (Nat.ltb_spec (length source) (start + S p)); [lia|].
    destruct (Nat.ltb_spec (S p - 0) (start + S p - start)); [lia|].
    replace (start + S p - start) with (S p) by lia.
    rewrite take_0. cbn [app].
    rewrite (drop_ge (replicate (S p) f)) by (rewrite length_replicate; lia).
    now rewrite app_nil_r.
Qed.

Lemma splitBuffer_chunk_eq (buffer : list Z) (size i : nat) :
  0 < size -> i < chunk_count (length buffer) size ->
  splitBuffer_chunk buffer (length buffer) size
    (chunk_count (length buffer) size) i
  = Some (buffer_chunk buffer size i).
Proof.
  intros Hs Hi. unfold splitBuffer_chunk, buffer_chunk. cbv zeta.
  unfold Buffer_alloc. change (Z.land 0 255) with 0%Z.
  apply copy_whole.
  pose proof (chunk_count_div (length buffer) size Hs) as Hc.
  pose proof (Nat.div_mod_eq (length buffer) size) as D.
  pose proof (Nat.mod_upper_bound (length buffer) size ltac:(lia)) as B.
  destruct (Nat.eqb_spec (i + 1) (chunk_count (length buffer) size)).
  - destruct (Nat.eqb_spec (length buffer mod size) 0); nia.
  - assert (H1 : i + 1 < chunk_count (length buffer) size) by lia.
    apply chunk_count_lt in H1; [nia | assumption].
Qed.

Lemma splitBuffer_eq (buffer : list Z) (size : nat) :
  0 < size ->
  splitBuffer buffer size
  = Some (map (buffer_chunk buffer size)
            (List.seq 0 (chunk_count (length buffer) size))).
Proof.
  intros Hs. unfold splitBuffer. cbv zeta.
  fold (chunk_count (length buffer) size).
  apply mapM_seq_Some. intros i Hi.
  apply splitBuffer_chunk_eq; [assumption | lia].
Qed.

Lemma buffer_chunk_inner (buffer : list Z) (size i : nat) :
  0 < size -> i + 1 < chunk_count (length buffer) size ->
  buffer_chunk buffer size i = take size (drop (size * i) buffer)
  /\ length (buffer_chunk buffer size i) = size.
Proof.
  intros Hs Hi. unfold buffer_chunk. cbv zeta.
  destruct (Nat.eqb_spec (i + 1) (chunk_count (length buffer) size)); [lia|].
  split; [reflexivity|].
  apply chunk_count_lt in Hi; [|assumption].
  rewrite length_take, length_drop. nia.
Qed.

Lemma concat_chunks_inner (buffer : list Z) (size k : nat) :
  0 < size -> k < chunk_count (length buffer) size ->
  concat (map (buffer_chunk buffer size) (List.seq 0 k))
  = take (size * k) buffer.
Proof.
  intros Hs. induction k as [|k IH]; intros Hk.
  - rewrite Nat.mul_0_r. reflexivity.
  - rewrite seq_S, map_app, concat_app, IH by lia.
    cbn [map concat Nat.add]. rewrite app_nil_r.
    destruct (buffer_chunk_inner buffer size k Hs ltac:(lia)) as [-> _].
    rewrite take_take_drop. f_equal. lia.
Qed.

Lemma writes_fold_push (chunks : list (list Z)) :
  forall st,
  let st' := fold_left (fun st chunk => push_write chunk st) chunks st in
  writes st' = writes st ++ chunks
  /\ seq st' = seq st /\ session st' = session st
  /\ sending st' = sending st /\ finished st' = finished st
  /\ writtenBytes st' = writtenBytes st /\ resolved st' = resolved st.
Proof.
  induction chunks as [|c chunks IH]; intros st; cbv zeta.
  - cbn [fold_left]. rewrite app_nil_r. repeat split; reflexivity.
  - cbn [fold_left].
    destruct (IH (push_write c st)) as (H1 & H2 & H3 & H4 & H5 & H6 & H7).
    cbv zeta in H1. rewrite H1, H2, H3, H4, H5, H6, H7.
    destruct st. cbn [push_write writes seq session sending finished
                      writtenBytes resolved].
    rewrite <- app_assoc. repeat split; reflexivity.
Qed.

Lemma concat_chunks (buffer : list Z) (size : nat) :
  0 < size ->
  concat (map (buffer_chunk buffer size)
            (List.seq 0 (chunk_count (length buffer) size)))
  = take (if length buffer mod size =? 0
          then length buffer - size else length buffer) buffer.
Proof.
  intros Hs.
  pose proof (chunk_count_div (length buffer) size Hs) as Hc.
  pose proof (Nat.div_mod_eq (length buffer) size) as D.
  pose proof (Nat.mod_upper_bound (length buffer) size ltac:(lia)) as B.
  destruct (chunk_count (length buffer) size) as [|k] eqn:En.
  - assert (E0 : length buffer = 0).
    { destruct (Nat.eqb_spec (length buffer mod size) 0); nia. }
    apply nil_length_inv in E0. subst buffer. now rewrite take_nil.
  - rewrite seq_S, map_app, concat_app.
    rewrite concat_chunks_inner by (rewrite ?En; lia).
    cbn [map concat Nat.add]. rewrite app_nil_r.
    unfold buffer_chunk. cbv zeta. rewrite En.
    replace (k + 1 =? S k) with true by (symmetry; apply Nat.eqb_eq; lia).
    destruct (Nat.eqb_spec (length buffer mod size) 0) as [E|E].
    + rewrite E, take_0, app_nil_r. f_equal. nia.
    + rewrite (take_ge (drop (size * k) buffer))
        by (rewrite length_drop; nia).
      rewrite take_drop. now rewrite take_ge.
Qed.
End SplitBufferFacts.

(** X6.  For a chunk size above 0, [splitBuffer] never throws.  It
    returns [L / size] chunks, and one more when [L mod size] is not 0;
    every chunk before the last holds [size] bytes of the buffer, and the
    last one holds [L mod size] bytes: when [L] is a multiple of [size],
    the last chunk is empty. *)
Theorem splitBuffer_chunks (buffer : list Z) (size : nat) :
  0 < size ->
  exists chunks,
    splitBuffer buffer size = Some chunks
    /\ length chunks
       = length buffer / size + (if length buffer mod size =? 0 then 0 else 1)
    /\ forall i chunk, chunks !! i = Some chunk ->
         (i + 1 < length chunks ->
            chunk = take size (drop (size * i) buffer) /\ length chunk = size)
         /\ (i + 1 = length chunks -> length chunk = length buffer mod size).
Proof.
  intros Hs. eexists. split; [apply splitBuffer_eq, Hs|].
  rewrite length_map, length_seq.
  split; [apply chunk_count_div, Hs|].
  intros i chunk Hi.
  rewrite list_lookup_fmap in Hi.
  destruct (List.seq 0 (chunk_count (length buffer) size) !! i) as [j|] eqn:E;
    [|discriminate].
  apply lookup_seq in E as [-> Hlt]. cbn [fmap option_fmap option_map] in Hi.
  injection Hi as <-. cbn [Nat.add]. split.
  - intros Hin. apply buffer_chunk_inner; assumption.
  - intros Hlast. unfold buffer_chunk. cbv zeta. rewrite Hlast, Nat.eqb_refl.
    rewrite length_take, length_drop.
    pose proof (chunk_count_div (length buffer) size Hs) as Hc.
    pose proof (Nat.div_mod_eq (length buffer) size) as D.
    pose proof (Nat.mod_upper_bound (length buffer) size ltac:(lia)) as B.
    destruct (Nat.eqb_spec (length buffer mod size) 0); nia.
Qed.

Lemma splitBuffer_chunks_witness :
  exists chunks,
    splitBuffer three_bytes 2 = Some chunks
    /\ length chunks
       = length three_bytes / 2
         + (if length three_bytes mod 2 =? 0 then 0 else 1)
    /\ forall i chunk, chunks !! i = Some chunk ->
         (i + 1 < length chunks ->
            chunk = take 2 (drop (2 * i) three_bytes) /\ length chunk = 2)
         /\ (i + 1 = length chunks -> length chunk = length three_bytes mod 2).
Proof.
  apply (splitBuffer_chunks three_bytes 2). lia.
Defined.

(** X7.  Put end to end, the chunks of [splitBuffer] give the buffer back
    exactly when the buffer is empty or its length is not a multiple of the
    chunk size; when the length is a positive multiple of the size, the
    last [size] bytes of the buffer are in no chunk. *)
Theorem splitBuffer_concat (buffer : list Z) (size : nat)
    (chunks : list (list Z)) :
  0 < size ->
  splitBuffer buffer size = Some chunks ->
  concat chunks
  = take (if length buffer mod size =? 0
          then length buffer - size else length buffer) buffer
  /\ (concat chunks = buffer <-> buffer = [] \/ length buffer mod size <> 0).
Proof.
  intros Hs. rewrite splitBuffer_eq by assumption. intros [= <-].
  rewrite concat_chunks by assumption. split; [reflexivity|].
  destruct (Nat.eqb_spec (length buffer mod size) 0) as [E|E].
  - split.
    + intros H. apply (f_equal length) in H. rewrite length_take in H.
      left. apply nil_length_inv. lia.
    + intros [-> | H]; [reflexivity | contradiction].
  - split; [intros _; right; assumption|].
    intros _. now rewrite take_ge.
Qed.

Lemma splitBuffer_concat_witness :
  concat (default [] (splitBuffer check_string 3))
  = take (if length check_string mod 3 =? 0
          then length check_string - 3 else length check_string) check_string
  /\ (concat (default [] (splitBuffer check_string 3)) = check_string
      <-> check_string = [] \/ length check_string mod 3 <> 0).
Proof.
  apply (splitBuffer_concat check_string 3).
  - lia.
  - vm_compute. reflexivity.
Defined.

(** X8.  [sendBuffer] never throws and changes nothing but the list of
    writes.  Without a chunk size it writes the buffer whole, once; with a
    chunk size it writes the chunks of [splitBuffer] in order, so the bytes
    on the wire are the buffer, less its last [once_len] bytes when its
    length is a multiple of [once_len]. *)
Theorem sendBuffer_chunked_writes (buffer : list Z) (once_len : nat)
    (st : State) :
  exists st',
    sendBuffer_chunked buffer once_len st = Some st'
    /\ seq st' = seq st /\ session st' = session st
    /\ sending st' = sending st /\ finished st' = finished st
    /\ writtenBytes st' = writtenBytes st /\ resolved st' = resolved st
    /\ (once_len = 0 -> writes st' = writes st ++ [buffer])
    /\ (0 < once_len ->
        exists chunks,
          splitBuffer buffer once_len = Some chunks
          /\ writes st' = writes st ++ chunks
          /\ concat chunks
             = take (if length buffer mod once_len =? 0
                     then length buffer - once_len else length buffer) buffer).
Proof.
  unfold sendBuffer_chunked.
  destruct (Nat.eqb_spec once_len 0) as [->|Hn].
  - eexists. split; [reflexivity|].
    destruct st. cbn [sendBuffer push_write seq session sending finished
                      writtenBytes resolved writes].
    repeat split; try reflexivity. intros H. lia.
  - assert (Hs : 0 < once_len) by lia.
    rewrite splitBuffer_eq, option_bind_Some by assumption.
    eexists. split; [reflexivity|].
    match goal with |- context [fold_left ?f ?c st] =>
      destruct (writes_fold_push c st) as (H1 & H2 & H3 & H4 & H5 & H6 & H7)
    end.
    cbv zeta in H1. rewrite H2, H3, H4, H5, H6, H7.
    do 6 (split; [reflexivity|]).
    split; [intros; lia|]. intros _.
    eexists. split; [reflexivity|]. split; [exact H1|].
    apply concat_chunks, Hs.
Qed.

Section DriverMore.
Variable env : Env.

Ltac split_ch ch :=
  destruct (Z.eqb_spec ch CRC16) as [->|?];
  [|destruct (Z.eqb_spec ch ACK) as [->|?];
    [|destruct (Z.eqb_spec ch NAK) as [->|?];
      [|destruct (Z.eqb_spec ch CA) as [->|?]]]].

Ltac driver_step :=
  match goal with
  | |- context [if ?b then _ else _] =>
      lazymatch b with
      | context [if _ then _ else _] => fail
      | context [match _ with _ => _ end] => fail
      | context [sendPacket] => fail
      | context [close] => fail
      | context [finish] => fail
      | _ => destruct b eqn:?
      end
  | |- context [match ?o with Some _ => _ | None => _ end] =>
      lazymatch o with
      | context [if _ then _ else _] => fail
      | _ => destruct o eqn:?
      end
  end.

Ltac driver_cases :=
  repeat (simpl;
          first [ driver_step
                | progress unfold sendPacket, close, finish, sendBuffer ]);
  simpl.

Ltac nat_tests :=
  repeat match goal with
    | H : (_ <? _) = true |- _ => apply Nat.ltb_lt in H
    | H : (_ <? _) = false |- _ => apply Nat.ltb_ge in H
    | H : (_ <=? _) = true |- _ => apply Nat.leb_le in H
    | H : (_ <=? _) = false |- _ => apply Nat.leb_gt in H
    | H : (_ =? _) = true |- _ => apply Nat.eqb_eq in H
    | H : (_ =? _) = false |- _ => apply Nat.eqb_neq in H
    end.

(** What one byte leaves alone. *)
Lemma handle_byte_frame (st : State) (ch : Z) :
  rejected (handle_byte env st ch) = rejected st
  /\ (reader_locked env = true ->
      finished (handle_byte env st ch) = finished st)
  /\ (reader_locked env = false ->
      cancels (handle_byte env st ch) = cancels st).
Proof.
  destruct st as [sq ss sd fin wb pc ws pg rs rj cn].
  unfold handle_byte. simpl.
  destruct fin; [repeat split|]. simpl.
  split_ch ch; driver_cases; repeat split; congruence.
Qed.

Lemma handle_chunk_frame (bytes : list Z) :
  forall st,
  rejected (handle_chunk env st bytes) = rejected st
  /\ (reader_locked env = true ->
      finished (handle_chunk env st bytes) = finished st)
  /\ (reader_locked env = false ->
      cancels (handle_chunk env st bytes) = cancels st).
Proof.
  induction bytes as [|ch bytes IH]; intros st; [repeat split|].
  unfold handle_chunk in *. cbn [fold_left].
  destruct (IH (handle_byte env st ch)) as (H1 & H2 & H3).
  destruct (handle_byte_frame st ch) as (G1 & G2 & G3).
  repeat split; intros; rewrite ?H1, ?H2, ?H3 by assumption; auto.
Qed.

Lemma handle_chunk_app (a b : list Z) (st : State) :
  handle_chunk env st (a ++ b) = handle_chunk env (handle_chunk env st a) b.
Proof. unfold handle_chunk. apply fold_left_app. Qed.

Lemma forward_refl (st : State) : in_bounds env st -> forward env st st.
Proof.
  intros (_ & H1 & H2). unfold forward.
  split; [lia|]. split; [lia|].
  split; exists []; rewrite app_nil_r; repeat split; constructor.
Qed.

Lemma forward_trans (a b c : State) :
  forward env a b -> forward env b c -> forward env a c.
Proof.
  intros (A1 & A2 & (ws & A3 & A4) & (ps & A5 & A6 & A7))
         (B1 & B2 & (ws' & B3 & B4) & (ps' & B5 & B6 & B7)).
  unfold forward. split; [lia|]. split; [lia|]. split.
  - exists (ws ++ ws'). rewrite B3, A3, app_assoc. split; [reflexivity|].
    apply Forall_app. split; assumption.
  - exists (ps ++ ps'). rewrite B5, A5, app_assoc. split; [reflexivity|].
    split.
    + intros H. rewrite (A6 H), (B6 H). reflexivity.
    + intros H. apply Forall_app. split; auto.
Qed.

(** One byte moves the cursor and the count of bytes forward, within
    their bounds, and writes nothing but known frames. *)
Lemma handle_byte_forward (st : State) (ch : Z) :
  0 < length (file_trunks env) ->
  in_bounds env st ->
  forward env st (handle_byte env st ch).
Proof.
  destruct st as [sq ss sd fin wb pc ws pg rs rj cn].
  unfold in_bounds, forward, written_inv, handle_byte. simpl.
  intros Hl (Hw & Hs & Hb).
  assert (Hnil : exists l, ws = ws ++ l /\ Forall (known_frame env) l)
    by (exists []; split; [now rewrite app_nil_r | constructor]).
  assert (Hone : forall w, known_frame env w ->
            exists l, ws ++ [w] = ws ++ l /\ Forall (known_frame env) l)
    by (intros w Hk; exists [w]; split; [reflexivity | now constructor]).
  assert (Pnil : exists l,
            pg = pg ++ l
            /\ (progressCallback env = false -> l = [])
            /\ ((1 < length (file_trunks env) -> 0 < totalBytes env) ->
                Forall (progress_ok (totalBytes env)) l))
    by (exists []; rewrite app_nil_r; repeat split; constructor).
  destruct fin; [simpl; repeat split; try lia; assumption|]. simpl.
  split_ch ch; driver_cases; nat_tests;
    (split; [lia|]);
    (split; [unfold PACKET_SIZE_1024 in *; lia|]);
    (split;
     [ try exact Hnil; apply Hone;
       try (right; left; reflexivity); try (right; right; reflexivity);
       left; eapply list_elem_of_In, list_elem_of_lookup_2; eassumption
     | first
         [ exact Pnil
         | eexists [_]; split; [reflexivity|];
           split; [intros; congruence|];
           intros Ht; constructor; [|constructor];
           unfold progress_ok, PACKET_SIZE_1024 in *; simpl; lia ] ]).
Qed.

Lemma in_bounds_handle_byte (st : State) (ch : Z) :
  0 < length (file_trunks env) ->
  in_bounds env st -> in_bounds env (handle_byte env st ch).
Proof.
  intros Hl Hi. pose proof (handle_byte_forward st ch Hl Hi) as (F1 & F2 & _).
  destruct Hi as (Hw & _ & _). split; [|lia].
  apply written_inv_handle_byte, Hw.
Qed.

Lemma handle_chunk_forward (bytes : list Z) :
  forall st,
  0 < length (file_trunks env) ->
  in_bounds env st ->
  forward env st (handle_chunk env st bytes)
  /\ in_bounds env (handle_chunk env st bytes).
Proof.
  induction bytes as [|ch bytes IH]; intros st Hl Hi.
  - split; [apply forward_refl, Hi | exact Hi].
  - unfold handle_chunk in *. cbn [fold_left].
    destruct (IH (handle_byte env st ch) Hl
                (in_bounds_handle_byte st ch Hl Hi)) as [F I].
    split; [|exact I].
    eapply forward_trans; [apply handle_byte_forward; assumption | exact F].
Qed.

Lemma forward_push_rejected (st : State) :
  in_bounds env st ->
  forward env st (push_rejected st) /\ in_bounds env (push_rejected st).
Proof.
  intros Hi. destruct st. split; [apply (forward_refl _ Hi) | exact Hi].
Qed.

Lemma readData_forward (chunks : list (list Z)) (e : StreamEnd) :
  forall st,
  0 < length (file_trunks env) ->
  in_bounds env st ->
  forward env st (readData env st chunks e)
  /\ in_bounds env (readData env st chunks e).
Proof.
  induction chunks as [|c chunks IH]; intros st Hl Hi; cbn [readData].
  - destruct e; [|apply forward_push_rejected, Hi].
    split; [apply forward_refl, Hi | exact Hi].
  - destruct (handle_chunk_forward c st Hl Hi) as [F I].
    destruct (0 <? cancels (handle_chunk env st c)); [split; assumption|].
    destruct (IH _ Hl I) as [F' I'].
    split; [eapply forward_trans; eassumption | exact I'].
Qed.

Lemma finish_forward (st : State) :
  in_bounds env st ->
  forward env st (finish env st) /\ in_bounds env (finish env st).
Proof.
  intros Hi. destruct st as [sq ss sd fin wb pc ws pg rs rj cn].
  unfold finish. destruct fin; simpl;
    (split; [apply (forward_refl _ Hi) | exact Hi]).
Qed.

Lemma run_callbacks_forward (st : State) :
  in_bounds env st -> forward env st (run_callbacks env st).
Proof.
  intros Hi. unfold run_callbacks.
  assert (H : forward env st (Nat.iter (cancels st) (finish env) st)
              /\ in_bounds env (Nat.iter (cancels st) (finish env) st)).
  { induction (cancels st) as [|n [F I]].
    - split; [apply forward_refl, Hi | exact Hi].
    - change (Nat.iter (S n) (finish env) st)
        with (finish env (Nat.iter n (finish env) st)).
      destruct (finish_forward _ I) as [F' I'].
      split; [eapply forward_trans; eassumption | exact I']. }
  destruct H as [F _].
  destruct (Nat.iter (cancels st) (finish env) st). exact F.
Qed.

Lemma in_bounds_initial : in_bounds env initial.
Proof.
  split; [apply written_inv_initial|]. cbn [initial seq writtenBytes].
  split; lia.
Qed.

Lemma finish_fields (st : State) :
  seq (finish env st) = seq st
  /\ writes (finish env st) = writes st
  /\ writtenBytes (finish env st) = writtenBytes st
  /\ rejected (finish env st) = rejected st.
Proof.
  destruct st as [sq ss sd fin wb pc ws pg rs rj cn].
  unfold finish. destruct fin; simpl; repeat split.
Qed.

Lemma run_callbacks_fields (st : State) :
  seq (run_callbacks env st) = seq st
  /\ writes (run_callbacks env st) = writes st
  /\ writtenBytes (run_callbacks env st) = writtenBytes st
  /\ rejected (run_callbacks env st) = rejected st.
Proof.
  unfold run_callbacks.
  assert (H : seq (Nat.iter (cancels st) (finish env) st) = seq st
              /\ writes (Nat.iter (cancels st) (finish env) st) = writes st
              /\ writtenBytes (Nat.iter (cancels st) (finish env) st)
                 = writtenBytes st
              /\ rejected (Nat.iter (cancels st) (finish env) st)
                 = rejected st).
  { induction (cancels st) as [|n (H1 & H2 & H3 & H4)]; [repeat split|].
    change (Nat.iter (S n) (finish env) st)
      with (finish env (Nat.iter n (finish env) st)).
    destruct (finish_fields (Nat.iter n (finish env) st))
      as (G1 & G2 & G3 & G4).
    repeat split; congruence. }
  destruct (Nat.iter (cancels st) (finish env) st). exact H.
Qed.

(** With a reader that is not locked no cancellation is ever pending, and
    the loop reads every chunk. *)
Lemma readData_unlocked (chunks : list (list Z)) (e : StreamEnd) :
  reader_locked env = false ->
  forall st,
  cancels st = 0 ->
  readData env st chunks e
  = readData env (handle_chunk env st (concat chunks)) [] e.
Proof.
  intros Hl. induction chunks as [|c chunks IH]; intros st Hc;
    cbn [readData concat]; [reflexivity|].
  destruct (handle_chunk_frame c st) as (_ & _ & H).
  specialize (H Hl). rewrite H, Hc. change (0 <? 0) with false. cbv iota.
  rewrite IH by congruence. rewrite handle_chunk_app. reflexivity.
Qed.

Lemma sendPacket_fields (st : State) :
  seq (sendPacket env st) = seq st
  /\ session (sendPacket env st) = session st
  /\ sending (sendPacket env st) = sending st
  /\ finished (sendPacket env st) = finished st
  /\ writtenBytes (sendPacket env st) = writtenBytes st
  /\ progress (sendPacket env st) = progress st
  /\ resolved (sendPacket env st) = resolved st
  /\ cancels (sendPacket env st) = cancels st
  /\ writes (sendPacket env st)
     = writes st ++ match file_trunks env !! seq st with
                    | Some packet => [packet]
                    | None => if sending st then [[EOT]] else []
                    end.
Proof.
  unfold sendPacket.
  destruct (Nat.ltb_spec (seq st) (length (file_trunks env))) as [H|H].
  - destruct (lookup_lt_is_Some_2 _ _ H) as [p ->].
    destruct st; simpl; repeat split.
  - rewrite (proj2 (lookup_ge_None _ _) H).
    destruct st as [sq ss sd fin wb pc ws pg rs rj cn]. simpl.
    destruct sd; simpl; rewrite ?app_nil_r; repeat split.
Qed.

Lemma nak_step (st : State) :
  finished st = false ->
  handle_byte env st NAK = set_PreChar NAK (sendPacket env st).
Proof. intros H. unfold handle_byte. rewrite H. reflexivity. Qed.

Lemma crc16_step (st : State) :
  finished st = false ->
  handle_byte env st CRC16
  = set_PreChar CRC16
      (if length (file_trunks env) <=? seq st then sendBuffer eot_pack st
       else if negb (PreChar st =? CRC16)%Z
            then set_sending true (sendPacket env st)
            else st).
Proof. intros H. unfold handle_byte. rewrite H. reflexivity. Qed.

Lemma crc16_repeated (n : nat) (st : State) (packet : list Z) :
  finished st = false -> PreChar st = CRC16 ->
  file_trunks env !! seq st = Some packet ->
  handle_chunk env st (replicate n CRC16) = st.
Proof.
  intros Hf Hp Hq. induction n as [|n IH]; [reflexivity|].
  unfold handle_chunk in *. cbn [replicate fold_left].
  rewrite crc16_step by assumption.
  apply lookup_lt_Some in Hq. apply Nat.leb_gt in Hq. rewrite Hq, Hp.
  change (negb (CRC16 =? CRC16)%Z) with false. cbv iota.
  replace (set_PreChar CRC16 st) with st; [exact IH|].
  destruct st. simpl in Hp. subst. reflexivity.
Qed.

Lemma crc16_past_the_end (n : nat) :
  forall st,
  finished st = false ->
  file_trunks env !! seq st = None ->
  let st' := handle_chunk env st (replicate n CRC16) in
  seq st' = seq st /\ session st' = session st /\ sending st' = sending st
  /\ finished st' = false /\ writtenBytes st' = writtenBytes st
  /\ resolved st' = resolved st
  /\ writes st' = writes st ++ replicate n eot_pack.
Proof.
  induction n as [|n IH]; intros st Hf Hq; cbv zeta.
  - cbn [replicate]. rewrite app_nil_r. repeat split. exact Hf.
  - unfold handle_chunk in *. cbn [replicate fold_left].
    rewrite crc16_step by assumption.
    pose proof Hq as Hge. apply lookup_ge_None in Hge.
    apply Nat.leb_le in Hge. rewrite Hge.
    specialize (IH (set_PreChar CRC16 (sendBuffer eot_pack st))).
    cbv zeta in IH.
    destruct st as [sq ss sd fin wb pc ws pg rs rj cn]. simpl in *.
    destruct (IH Hf Hq) as (H1 & H2 & H3 & H4 & H5 & H6 & H7).
    rewrite H7, <- app_assoc. repeat split; assumption.
Qed.

Lemma map_default_seq (d : list Z) (l : list (list Z)) (k : nat) :
  k <= length l ->
  map (fun i => default d (l !! i)) (List.seq k (length l - k + 1))
  = drop k l ++ [d].
Proof.
  intros Hk. rewrite seq_app, map_app. f_equal.
  - apply list_eq. intros i. rewrite list_lookup_fmap, lookup_drop.
    destruct (Nat.lt_ge_cases i (length l - k)) as [H|H].
    + rewrite lookup_seq_lt by assumption. cbn [fmap option_fmap option_map].
      destruct (lookup_lt_is_Some_2 l (k + i) ltac:(lia)) as [x ->].
      reflexivity.
    + rewrite lookup_seq_ge by assumption.
      rewrite (proj2 (lookup_ge_None l (k + i))) by lia. reflexivity.
  - cbn [List.seq map].
    rewrite (proj2 (lookup_ge_None l (k + (length l - k)))) by lia.
    reflexivity.
Qed.

(** The ACKs of the data packets, one after the other. *)
Lemma ack_chain (m : nat) :
  forall st,
  written_inv env st ->
  finished st = false -> session st = true -> sending st = true ->
  0 < seq st -> seq st + m <= length (file_trunks env) ->
  let st' := handle_chunk env st (replicate m ACK) in
  seq st' = seq st + m
  /\ writes st'
     = writes st ++ map (fun i => default [EOT] (file_trunks env !! i))
                      (List.seq (seq st + 1) m)
  /\ finished st' = false /\ session st' = true /\ sending st' = true
  /\ (0 < m ->
      writtenBytes st' = Nat.min ((seq st + m) * 1024) (totalBytes env))
  /\ tears_down env st (replicate m ACK) = false.
Proof.
  induction m as [|m IH]; intros st Hw Hf Hs Hd Hq Hm; cbv zeta.
  - cbn [replicate List.seq map tears_down]. rewrite app_nil_r, Nat.add_0_r.
    repeat split; try assumption. intros H. lia.
  - pose proof (ack_data_packet env st Hw Hf Hs Hd ltac:(lia)) as A.
    cbv zeta in A. destruct A as (A1 & A2 & A3 & A4 & A5 & A6).
    pose proof (written_inv_handle_byte env st ACK Hw) as Hw'.
    specialize (IH (handle_byte env st ACK) Hw' A4 A5 A6
                  ltac:(lia) ltac:(lia)).
    cbv zeta in IH. destruct IH as (I1 & I2 & I3 & I4 & I5 & I6 & I7).
    unfold handle_chunk in *. cbn [replicate fold_left List.seq map tears_down].
    rewrite I1, I2, A2, A3, <- app_assoc.
    replace (seq st + 1 + 1) with (S (seq st + 1)) by lia.
    split; [lia|]. split; [reflexivity|].
    do 3 (split; [assumption|]). split.
    + intros _. destruct m as [|m].
      * exact A1.
      * rewrite I6 by lia. rewrite A2. f_equal. lia.
    + rewrite I7. unfold tear_byte. rewrite Hs. reflexivity.
Qed.

(** 'C', the ACK of the header and 'C' again: the header and the first
    data packet are on the wire. *)
Lemma header_handshake :
  1 < length (file_trunks env) ->
  exists q0 q1 rest,
    file_trunks env = q0 :: q1 :: rest
    /\ handle_chunk env initial [CRC16; ACK; CRC16]
       = mkState 1 true true false 0 CRC16 [q0; q1] [] [] 0 0.
Proof.
  destruct env as [fn q tot lk cb]. cbn [file_trunks].
  destruct q as [|q0 [|q1 rest]]; cbn [length]; try lia. intros _.
  exists q0, q1, rest. split; [reflexivity|].
  unfold handle_chunk. cbn [fold_left].
  set (E := mkEnv fn (q0 :: q1 :: rest) tot lk cb).
  assert (E1 : handle_byte E initial CRC16
               = mkState 0 true true false 0 CRC16 [q0] [] [] 0 0)
    by reflexivity.
  rewrite E1.
  assert (E2 : handle_byte E (mkState 0 true true false 0 CRC16 [q0] [] [] 0 0)
                 ACK
               = mkState 1 true true false 0 ACK [q0] [] [] 0 0)
    by reflexivity.
  rewrite E2. reflexivity.
Qed.

(** The ACK of EOT: the closing packet goes out and the session ends. *)
Lemma ack_of_eot (st : State) :
  finished st = false -> session st = true -> sending st = true ->
  seq st = length (file_trunks env) -> 0 < seq st ->
  let st' := handle_byte env st ACK in
  seq st' = seq st /\ writes st' = writes st ++ [eot_pack]
  /\ finished st' = false /\ session st' = false /\ sending st' = false
  /\ writtenBytes st' = writtenBytes st /\ cancels st' = cancels st.
Proof.
  destruct st as [sq ss sd fin wb pc ws pg rs rj cn]. simpl.
  intros -> -> -> -> Hq. unfold handle_byte. simpl.
  destruct (Nat.eqb_spec (length (file_trunks env)) 0); [lia|].
  rewrite Nat.ltb_irrefl. simpl. repeat split.
Qed.

(** An ACK once the session has ended writes nothing. *)
Lemma ack_after_session (st : State) :
  finished st = false -> session st = false ->
  let st' := handle_byte env st ACK in
  seq st' = seq st /\ writes st' = writes st
  /\ writtenBytes st' = writtenBytes st.
Proof.
  destruct st as [sq ss sd fin wb pc ws pg rs rj cn]. simpl.
  intros -> ->. unfold handle_byte. simpl. unfold close. simpl.
  destruct (reader_locked env); simpl; repeat split.
Qed.

Lemma readData_nil_chunks (chunks : list (list Z)) (e : StreamEnd) :
  forall st,
  concat chunks = [] -> cancels st = 0 ->
  readData env st chunks e = readData env st [] e.
Proof.
  induction chunks as [|c chunks IH]; intros st Hc Hn; [reflexivity|].
  cbn [concat] in Hc. apply app_eq_nil in Hc as [-> Hc].
  cbn [readData]. change (handle_chunk env st []) with st.
  rewrite Hn. change (0 <? 0) with false. cbv iota.
  apply IH; assumption.
Qed.

Lemma core_run_callbacks_end (st : State) (e : StreamEnd) :
  cancels st = 0 ->
  core (run_callbacks env (readData env st [] e))
  = core (run_callbacks env st).
Proof.
  intros H. destruct e; cbn [readData]; [reflexivity|].
  destruct st. simpl in H. subst. reflexivity.
Qed.

(** When [close] is called on the last byte only, the way the bytes
    arrive in chunks makes no difference. *)
Lemma readData_quiet (e : StreamEnd) (chunks : list (list Z)) :
  forall st pre last,
  concat chunks = pre ++ [last] ->
  torn_b st = false ->
  torn_b (handle_chunk env st pre) = false ->
  core (run_callbacks env (readData env st chunks e))
  = core (run_callbacks env (handle_chunk env st (pre ++ [last]))).
Proof.
  induction chunks as [|c chunks IH]; intros st pre last Hc Ht Hp.
  - cbn [concat] in Hc. destruct pre; discriminate.
  - cbn [concat] in Hc. cbn [readData].
    destruct (concat chunks) as [|x l] eqn:El using rev_ind.
    + rewrite app_nil_r in Hc. subst c.
      destruct (0 <? cancels (handle_chunk env st (pre ++ [last]))) eqn:E;
        [reflexivity|].
      apply Nat.ltb_ge in E.
      rewrite readData_nil_chunks by (assumption || lia).
      apply core_run_callbacks_end. lia.
    + clear IHl. rewrite app_assoc in Hc.
      apply app_inj_tail in Hc as [<- <-].
      rewrite handle_chunk_app in Hp.
      rewrite torn_handle_chunk in Hp. apply orb_false_iff in Hp as [Hp1 Hp2].
      pose proof Hp1 as Hp3. unfold torn_b in Hp3.
      apply orb_false_iff in Hp3 as [_ ->].
      rewrite (IH (handle_chunk env st c) l x eq_refl Hp1).
      * rewrite <- handle_chunk_app, app_assoc. reflexivity.
      * rewrite torn_handle_chunk, Hp1, Hp2. reflexivity.
Qed.

Lemma core_fields (a b : State) :
  core a = core b ->
  seq a = seq b /\ writes a = writes b /\ writtenBytes a = writtenBytes b
  /\ finished a = finished b /\ resolved a = resolved b.
Proof. unfold core. intros H. injection H. intros. repeat split; assumption. Qed.

(** The whole transfer to a receiver that accepts everything. *)
Lemma polite_run (n : nat) (chunks : list (list Z)) (e : StreamEnd) :
  length (file_trunks env) = S n -> 0 < n ->
  concat chunks = polite_replies n ->
  let st := run env chunks e in
  writes st = file_trunks env ++ [[EOT]; eot_pack]
  /\ seq st = S n /\ finished st = true
  /\ resolved st
     = [mkOutcome (filename env) (totalBytes env)
          (Nat.min (S n * 1024) (totalBytes env))].
Proof.
  intros Hlen Hn Hc. cbv zeta.
  set (pre := [CRC16; ACK; CRC16] ++ replicate n ACK ++ [ACK]).
  assert (Hs : polite_replies n = pre ++ [ACK]).
  { unfold polite_replies, pre. rewrite <- !app_assoc. reflexivity. }
  rewrite Hs in Hc.
  destruct (header_handshake ltac:(lia)) as (q0 & q1 & rest & Hq & H3).
  set (s3 := mkState 1 true true false 0 CRC16 [q0; q1] [] [] 0 0) in H3.
  pose proof (ack_chain n s3 (or_introl eq_refl) eq_refl eq_refl eq_refl
                ltac:(cbn; lia) ltac:(cbn; lia)) as A.
  cbv zeta in A. cbn [seq writes s3] in A.
  destruct A as (A1 & A2 & A3 & A4 & A5 & A6 & A7).
  specialize (A6 Hn).
  set (s4 := handle_chunk env s3 (replicate n ACK)) in *.
  replace n with (length (file_trunks env) - 2 + 1) in A2 at 1 by lia.
  rewrite map_default_seq in A2 by lia.
  assert (T4 : torn_b s4 = false).
  { unfold s4. rewrite torn_handle_chunk, A7. reflexivity. }
  pose proof (ack_of_eot s4 A3 A4 A5 ltac:(lia) ltac:(lia)) as B.
  cbv zeta in B. destruct B as (B1 & B2 & B3 & B4 & B5 & B6 & B7).
  set (s5 := handle_byte env s4 ACK) in *.
  assert (E5 : handle_chunk env initial pre = s5).
  { unfold pre. rewrite !handle_chunk_app, H3. reflexivity. }
  assert (T5 : torn_b s5 = false).
  { unfold torn_b in *. rewrite B3, B7. rewrite A3 in T4. exact T4. }
  pose proof (ack_after_session s5 B3 B4) as C. cbv zeta in C.
  destruct C as (C1 & C2 & C3).
  pose proof (readData_quiet e chunks initial pre ACK Hc eq_refl) as Q.
  rewrite E5 in Q. specialize (Q T5).
  rewrite handle_chunk_app, E5 in Q.
  change (handle_chunk env s5 [ACK]) with (handle_byte env s5 ACK) in Q.
  apply core_fields in Q as (Q1 & Q2 & Q3 & Q4 & Q5).
  destruct (run_callbacks_fields (handle_byte env s5 ACK))
    as (R1 & R2 & R3 & _).
  destruct (run_resolved env chunks e) as [F1 F2]. cbv zeta in F1, F2.
  assert (Hfin : finished (run env chunks e) = true).
  { rewrite F1, Hc, tears_down_app, E5. cbn [tears_down].
    unfold tear_byte. rewrite B4. apply orb_true_r. }
  rewrite Hfin in F2.
  assert (Hwb : writtenBytes (run env chunks e)
                = Nat.min (S n * 1024) (totalBytes env)).
  { unfold run. rewrite Q3, R3, C3, B6, A6. reflexivity. }
  split; [|split; [|split]].
  - unfold run. rewrite Q2, R2, C2, B2, A2, Hq.
    cbn [drop app]. rewrite <- !app_assoc. reflexivity.
  - unfold run. rewrite Q1, R1, C1, B1, A1. reflexivity.
  - exact Hfin.
  - rewrite F2. unfold outcome_of. rewrite Hwb. reflexivity.
Qed.
End DriverMore.

(** X9.  While the outcome has not been produced, a run of NAK bytes
    makes [sendPacket] repeat the packet at the cursor once per NAK, or
    the single byte EOT when the cursor is past the queue and
    transmission is armed, or nothing; the cursor, the flags, the count of
    bytes and the outcome are left as they were: there is no limit on the
    retransmissions. *)
Theorem nak_retransmits (env : Env) (n : nat) (st : State) :
  finished st = false ->
  let st' := handle_chunk env st (replicate n NAK) in
  seq st' = seq st /\ session st' = session st /\ sending st' = sending st
  /\ finished st' = false /\ writtenBytes st' = writtenBytes st
  /\ progress st' = progress st /\ resolved st' = resolved st
  /\ cancels st' = cancels st
  /\ writes st'
     = writes st ++ match file_trunks env !! seq st with
                    | Some packet => replicate n packet
                    | None => if sending st then replicate n [EOT] else []
                    end.
Proof.
  revert st. induction n as [|n IH]; intros st Hf; cbv zeta.
  - cbn [replicate]. change (handle_chunk env st []) with st.
    repeat split; try assumption.
    destruct (file_trunks env !! seq st); [|destruct (sending st)];
      now rewrite app_nil_r.
  - unfold handle_chunk in *. cbn [replicate fold_left].
    rewrite nak_step by assumption.
    destruct (sendPacket_fields env st)
      as (S1 & S2 & S3 & S4 & S5 & S6 & S7 & S8 & S9).
    specialize (IH (set_PreChar NAK (sendPacket env st))). cbv zeta in IH.
    destruct (sendPacket env st) as [sq' ss' sd' fin' wb' pc' ws' pg' rs' rj' cn'].
    simpl in *. subst.
    destruct (IH Hf) as (H1 & H2 & H3 & H4 & H5 & H6 & H7 & H8 & H9).
    rewrite H9, <- app_assoc. repeat split; try assumption.
    f_equal. destruct (file_trunks env !! seq st); [reflexivity|].
    destruct (sending st); reflexivity.
Qed.

Lemma nak_retransmits_witness :
  let st := handle_chunk three_bytes_env initial [CRC16] in
  let st' := handle_chunk three_bytes_env st (replicate 2 NAK) in
  seq st' = seq st /\ session st' = session st /\ sending st' = sending st
  /\ finished st' = false /\ writtenBytes st' = writtenBytes st
  /\ progress st' = progress st /\ resolved st' = resolved st
  /\ cancels st' = cancels st
  /\ writes st'
     = writes st ++ match file_trunks three_bytes_env !! seq st with
                    | Some packet => replicate 2 packet
                    | None => if sending st then replicate 2 [EOT] else []
                    end.
Proof.
  apply (nak_retransmits three_bytes_env 2
           (handle_chunk three_bytes_env initial [CRC16])).
  vm_compute. reflexivity.
Defined.

(** X10.  While the outcome has not been produced, a run of 'C' bytes is
    answered in two ways.  With the cursor inside the queue the packet at
    the cursor is sent once, on the first 'C', and only when the byte
    before was not itself 'C'; transmission is then armed.  With the
    cursor past the queue every 'C' is answered with the closing packet.
    The cursor, the session flag, the count of bytes and the outcome are
    left as they were. *)
Theorem crc16_burst (env : Env) (n : nat) (st : State) :
  finished st = false ->
  let st' := handle_chunk env st (replicate (S n) CRC16) in
  seq st' = seq st /\ session st' = session st /\ finished st' = false
  /\ writtenBytes st' = writtenBytes st /\ resolved st' = resolved st
  /\ match file_trunks env !! seq st with
     | Some packet =>
         if (PreChar st =? CRC16)%Z
         then sending st' = sending st /\ writes st' = writes st
         else sending st' = true /\ writes st' = writes st ++ [packet]
     | None =>
         sending st' = sending st
         /\ writes st' = writes st ++ replicate (S n) eot_pack
     end.
Proof.
  intros Hf. cbv zeta.
  destruct (file_trunks env !! seq st) as [packet|] eqn:Hq.
  - unfold handle_chunk. cbn [replicate fold_left].
    fold (handle_chunk env (handle_byte env st CRC16) (replicate n CRC16)).
    rewrite crc16_step by assumption.
    pose proof Hq as Hlt. apply lookup_lt_Some, Nat.leb_gt in Hlt.
    rewrite Hlt.
    destruct (sendPacket_fields env st)
      as (S1 & S2 & S3 & S4 & S5 & S6 & S7 & S8 & S9).
    rewrite Hq in S9.
    destruct (Z.eqb_spec (PreChar st) CRC16) as [Hp|Hp]; cbn [negb].
    + rewrite (crc16_repeated env n _ packet).
      * destruct st. simpl in *. repeat split; assumption.
      * destruct st. exact Hf.
      * destruct st. reflexivity.
      * destruct st. exact Hq.
    + destruct (sendPacket env st)
        as [sq' ss' sd' fin' wb' pc' ws' pg' rs' rj' cn'].
      simpl in *. subst.
      rewrite (crc16_repeated env n _ packet); [|exact Hf|reflexivity|exact Hq].
      simpl. repeat split; assumption.
  - pose proof (crc16_past_the_end env (S n) st Hf Hq) as H.
    cbv zeta in H. destruct H as (H1 & H2 & H3 & H4 & H5 & H6 & H7).
    repeat split; assumption.
Qed.

Lemma crc16_burst_witness :
  let st' := handle_chunk three_bytes_env initial (replicate (S 2) CRC16) in
  seq st' = seq initial /\ session st' = session initial
  /\ finished st' = false
  /\ writtenBytes st' = writtenBytes initial
  /\ resolved st' = resolved initial
  /\ match file_trunks three_bytes_env !! seq initial with
     | Some packet =>
         if (PreChar initial =? CRC16)%Z
         then sending st' = sending initial /\ writes st' = writes initial
         else sending st' = true /\ writes st' = writes initial ++ [packet]
     | None =>
         sending st' = sending initial
         /\ writes st' = writes initial ++ replicate (S 2) eot_pack
     end.
Proof.
  apply (crc16_burst three_bytes_env 2 initial). reflexivity.
Defined.

Lemma run_forward (env : Env) (chunks : list (list Z)) (e : StreamEnd) :
  0 < length (file_trunks env) -> forward env initial (run env chunks e).
Proof.
  intros Hl. unfold run.
  destruct (readData_forward env chunks e initial Hl (in_bounds_initial env))
    as [F I].
  eapply forward_trans; [exact F|]. apply run_callbacks_forward, I.
Qed.

(** X11.  With a queue that is not empty the driver only moves forward.
    Between the state after some bytes and the state after more bytes,
    and between the start and the end of a run, the cursor does not go
    back and stays within the queue length, the count of written bytes
    does not go back and stays within [totalBytes], and every buffer
    written is a packet of the queue, the single byte EOT or the closing
    packet. *)
Theorem driver_moves_forward (env : Env) (a b : list Z)
    (chunks : list (list Z)) (e : StreamEnd) :
  0 < length (file_trunks env) ->
  forward env (handle_chunk env initial a) (handle_chunk env initial (a ++ b))
  /\ forward env initial (run env chunks e).
Proof.
  intros Hl. split.
  - rewrite handle_chunk_app.
    destruct (handle_chunk_forward env a initial Hl (in_bounds_initial env))
      as [_ I].
    apply (handle_chunk_forward env b _ Hl I).
  - apply run_forward, Hl.
Qed.

Lemma driver_moves_forward_witness :
  forward three_bytes_env
    (handle_chunk three_bytes_env initial [CRC16; ACK])
    (handle_chunk three_bytes_env initial ([CRC16; ACK] ++ [CRC16; ACK]))
  /\ forward three_bytes_env initial
       (run three_bytes_env [[CRC16; ACK]; [CRC16; ACK; CA]] ReadDone).
Proof.
  apply (driver_moves_forward three_bytes_env [CRC16; ACK] [CRC16; ACK]
           [[CRC16; ACK]; [CRC16; ACK; CA]] ReadDone).
  vm_compute. lia.
Defined.

(** X12.  In a transfer the progress callback is called only when it
    was passed, and each call reports a count of bytes above 0 and at most
    [totalBytes], the length of the ArrayBuffer under the argument, so a
    share in (0, 100] percent; when that ArrayBuffer is empty it is never
    called, so the division by [totalBytes] is never a division by 0. *)
Theorem transfer_progress_range (name : list Z) (arg : BufferArg)
    (locked callback : bool) (chunks : list (list Z)) (e : StreamEnd)
    (st : State) :
  transfer name arg locked callback chunks e = Some st ->
  exists arrayBuffer,
    BufferArg_buffer arg = Some arrayBuffer
    /\ Forall (progress_ok (length arrayBuffer)) (progress st)
    /\ (callback = false -> progress st = [])
    /\ (arrayBuffer = [] -> progress st = []).
Proof.
  unfold transfer.
  destruct (transfer_env name arg locked callback) as [env|] eqn:He;
    [|discriminate].
  rewrite option_bind_Some. intros [= <-].
  destruct (transfer_env_Some name arg locked callback env He)
    as (buffer & Hbuf & Hq).
  exists buffer. split; [exact Hbuf|].
  destruct (transfer_queue_facts name buffer locked callback env Hq)
    as (_ & Ht & Hcb & Hlen).
  destruct (run_forward env chunks e ltac:(lia))
    as (_ & _ & _ & ps & P1 & P2 & P3).
  cbn [initial progress app] in P1. rewrite P1, <- Ht.
  assert (Hok : Forall (progress_ok (totalBytes env)) ps).
  { apply P3. rewrite Hlen, Ht. intros H.
    destruct (length buffer) as [|k]; [|lia].
    change ((0 + 1023) / 1024) with 0 in H. lia. }
  split; [exact Hok|]. split.
  - intros H. apply P2. congruence.
  - intros ->. destruct Hok as [|p ps' Hp _]; [reflexivity|].
    rewrite Ht in Hp. unfold progress_ok in Hp. cbn [length] in Hp. lia.
Qed.

Lemma transfer_progress_range_witness :
  exists arrayBuffer,
    BufferArg_buffer (TypedArray two_packets 0 3) = Some arrayBuffer
    /\ Forall (progress_ok (length arrayBuffer))
         (progress
            (default initial
               (transfer (ascii_units "a") (TypedArray two_packets 0 3)
                  false true [[CRC16; ACK; CRC16; ACK; ACK]] ReadDone)))
    /\ (true = false ->
        progress
          (default initial
             (transfer (ascii_units "a") (TypedArray two_packets 0 3)
                false true [[CRC16; ACK; CRC16; ACK; ACK]] ReadDone)) = [])
    /\ (arrayBuffer = [] ->
        progress
          (default initial
             (transfer (ascii_units "a") (TypedArray two_packets 0 3)
                false true [[CRC16; ACK; CRC16; ACK; ACK]] ReadDone)) = []).
Proof.
  apply (transfer_progress_range (ascii_units "a") (TypedArray two_packets 0 3)
           false true [[CRC16; ACK; CRC16; ACK; ACK]] ReadDone).
  vm_compute. reflexivity.
Defined.

(** X14.  With a reader that is not locked, a run depends on the bytes
    received only, not on how they were cut into chunks. *)
Theorem unlocked_chunking (env : Env) (chunks chunks' : list (list Z))
    (e : StreamEnd) :
  reader_locked env = false ->
  concat chunks = concat chunks' ->
  run env chunks e = run env chunks' e.
Proof.
  intros Hl Hc. unfold run.
  rewrite (readData_unlocked env chunks e Hl initial eq_refl).
  rewrite (readData_unlocked env chunks' e Hl initial eq_refl).
  rewrite Hc. reflexivity.
Qed.

Lemma unlocked_chunking_witness :
  run three_bytes_env [[CRC16; ACK]; [CRC16; CA]; [ACK]] ReadDone
  = run three_bytes_env [[CRC16]; [ACK; CRC16; CA; ACK]] ReadDone.
Proof.
  apply (unlocked_chunking three_bytes_env
           [[CRC16; ACK]; [CRC16; CA]; [ACK]]
           [[CRC16]; [ACK; CRC16; CA; ACK]] ReadDone).
  - reflexivity.
  - reflexivity.
Defined.

(** X15.  A transfer to a receiver that accepts everything, when the
    ArrayBuffer under the argument is not empty: 'C', the ACK of the
    header, 'C', one ACK for each data packet, the ACK of EOT and the ACK
    of the closing packet, cut into chunks in any way.  The driver writes
    the whole queue in order, then the single byte EOT, then the closing
    packet, and nothing else; it produces the outcome once, with
    [totalBytes] and [writtenBytes] both the length of the ArrayBuffer,
    whatever part of it the argument views. *)
Theorem transfer_polite_receiver (name : list Z) (arg : BufferArg)
    (arrayBuffer : list Z) (locked callback : bool) (env : Env)
    (chunks : list (list Z)) (e : StreamEnd) :
  BufferArg_buffer arg = Some arrayBuffer ->
  arrayBuffer <> [] ->
  transfer_env name arg locked callback = Some env ->
  concat chunks = polite_replies ((length arrayBuffer + 1023) / 1024) ->
  exists st,
    transfer name arg locked callback chunks e = Some st
    /\ writes st = file_trunks env ++ [[EOT]; eot_pack]
    /\ seq st = length (file_trunks env)
    /\ finished st = true
    /\ resolved st
       = [mkOutcome name (length arrayBuffer) (length arrayBuffer)].
Proof.
  intros Harg Hb He Hc.
  destruct (transfer_env_Some name arg locked callback env He)
    as (buffer & Hbuf & Hq).
  assert (buffer = arrayBuffer) as -> by congruence.
  destruct (transfer_queue_facts name arrayBuffer locked callback env Hq)
    as (Hn & Ht & _ & Hlen).
  assert (Hpos : 0 < length arrayBuffer).
  { destruct arrayBuffer; [congruence | cbn [length]; lia]. }
  pose proof (Nat.div_mod_eq (length arrayBuffer + 1023) 1024) as D.
  pose proof (Nat.mod_upper_bound (length arrayBuffer + 1023) 1024
                ltac:(lia)) as B.
  set (n := (length arrayBuffer + 1023) / 1024) in *.
  destruct (polite_run env n chunks e Hlen ltac:(lia) Hc) as (P1 & P2 & P3 & P4).
  exists (run env chunks e).
  unfold transfer. rewrite He, option_bind_Some.
  split; [reflexivity|]. split; [exact P1|].
  split; [rewrite P2, Hlen; reflexivity|]. split; [exact P3|].
  rewrite P4, Hn, Ht. do 2 f_equal. lia.
Qed.

Lemma transfer_polite_receiver_witness :
  exists st,
    transfer (ascii_units "a") (TypedArray two_packets 0 3) true false
      [[CRC16]; [ACK; CRC16]; [ACK]; [ACK; ACK]; [ACK]] ReadDone = Some st
    /\ writes st
       = file_trunks
           (mkEnv (ascii_units "a") (file_trunks two_packets_env)
              (length two_packets) true false)
         ++ [[EOT]; eot_pack]
    /\ seq st
       = length
           (file_trunks
              (mkEnv (ascii_units "a") (file_trunks two_packets_env)
                 (length two_packets) true false))
    /\ finished st = true
    /\ resolved st
       = [mkOutcome (ascii_units "a") (length two_packets)
            (length two_packets)].
Proof.
  apply (transfer_polite_receiver (ascii_units "a")
           (TypedArray two_packets 0 3) two_packets true false
           (mkEnv (ascii_units "a") (file_trunks two_packets_env)
              (length two_packets) true false)
           [[CRC16]; [ACK; CRC16]; [ACK]; [ACK; ACK]; [ACK]] ReadDone).
  - reflexivity.
  - discriminate.
  - vm_compute. reflexivity.
  - vm_compute. reflexivity.
Defined.

Lemma crc_step_undefined (crc : Z) : crc_step crc None = crc_step crc (Some 0%Z).
Proof.
  unfold crc_step. cbv zeta. rewrite num_Some.
  change (JS.num None) with 0%Z. reflexivity.
Qed.

Lemma crc_loop_padding (packet : list Z) (k n : nat) :
  forall begin crc,
  crc_loop packet n begin crc
  = crc_loop (packet ++ replicate k 0%Z) n begin crc.
Proof.
  induction n as [|n IH]; intros begin crc; [reflexivity|].
  rewrite !crc_loop_S.
  assert (E : crc_step crc (packet !! begin)
              = crc_step crc ((packet ++ replicate k 0%Z) !! begin)).
  { destruct (Nat.lt_ge_cases begin (length packet)) as [H|H].
    - rewrite lookup_app_l by assumption. reflexivity.
    - rewrite lookup_app_r by assumption.
      rewrite (proj2 (lookup_ge_None packet begin) H).
      destruct (replicate k 0%Z !! (begin - length packet)) as [z|] eqn:Ez;
        [|reflexivity].
      apply lookup_replicate in Ez as [-> _]. apply crc_step_undefined. }
  rewrite E. apply IH.
Qed.

(** X16.  [crc16xmodem] never fails on a range that runs past the end of
    the packet: the elements it reads there count as zero bytes, so the
    result is that of the packet padded with zeros. *)
Theorem crc16xmodem_past_the_end (packet : list Z) (begin len k : nat)
    (previous : option Z) :
  crc16xmodem packet begin len previous
  = crc16xmodem (packet ++ replicate k 0%Z) begin len previous.
Proof.
  unfold crc16xmodem. cbv zeta. apply crc_loop_padding.
Qed.

Lemma readData_locked (env : Env) (chunks : list (list Z)) (e : StreamEnd) :
  reader_locked env = true ->
  forall st, finished (readData env st chunks e) = finished st.
Proof.
  intros Hl. induction chunks as [|c chunks IH]; intros st; cbn [readData].
  - destruct e; [reflexivity|]. destruct st. reflexivity.
  - destruct (handle_chunk_frame env c st) as (_ & H & _).
    specialize (H Hl).
    destruct (0 <? cancels (handle_chunk env st c)); [exact H|].
    rewrite IH. exact H.
Qed.

(** X17.  With a locked reader the read loop never produces the outcome
    itself: [close] only calls [reader.cancel()], the bytes left in the
    chunk are still handled, and the outcome is produced by the callback
    of the cancellation, with the count of bytes the loop ended with. *)
Theorem locked_reader_defers_outcome (env : Env) (chunks : list (list Z))
    (e : StreamEnd) :
  reader_locked env = true ->
  let st := readData env initial chunks e in
  finished st = false
  /\ resolved st = []
  /\ resolved (run env chunks e)
     = if 0 <? cancels st
       then [mkOutcome (filename env) (totalBytes env) (writtenBytes st)]
       else [].
Proof.
  intros Hl. cbv zeta.
  pose proof (readData_locked env chunks e Hl initial) as Hf.
  cbn [initial finished] in Hf.
  pose proof (outcome_inv_readData env chunks e initial
                (proj1 (initial_inv env))) as Hi.
  split; [exact Hf|]. split.
  - unfold outcome_inv in Hi. rewrite Hf in Hi. exact Hi.
  - destruct (run_callbacks_spec env _ Hi) as [H1 H2].
    destruct (run_callbacks_fields env (readData env initial chunks e))
      as (_ & _ & Hw & _).
    unfold run. unfold outcome_inv in H1. rewrite H1, H2.
    unfold torn_b. rewrite Hf. cbn [orb].
    unfold outcome_of. rewrite Hw. reflexivity.
Qed.

Lemma locked_reader_defers_outcome_witness :
  let env := mkEnv (ascii_units "a") (file_trunks three_bytes_env) 3
               true false in
  let st := readData env initial [[CRC16; CA; NAK]; [NAK]] ReadDone in
  finished st = false
  /\ resolved st = []
  /\ resolved (run env [[CRC16; CA; NAK]; [NAK]] ReadDone)
     = if 0 <? cancels st
       then [mkOutcome (filename env) (totalBytes env) (writtenBytes st)]
       else [].
Proof.
  apply (locked_reader_defers_outcome
           (mkEnv (ascii_units "a") (file_trunks three_bytes_env) 3
              true false)
           [[CRC16; CA; NAK]; [NAK]] ReadDone).
  reflexivity.
Defined.
